(** * google_asr_sin: keyword-table ingestion, transcript flattening and
      batch recognition, embedded from [google_asr_sin.py].

    Python values are embedded as follows.
    - A [str] is a [string]; a character is a code point below 256 (the
      [ascii] type read as Latin-1), which covers the embedded table.  The
      builtins [str.strip], [str.lower], [str.split], [in], slicing and
      [int] are written out below with the behaviour CPython has on such
      strings.
    - A [dict] is a [gmap]; the claims never depend on insertion order.
    - An exception is a value of [exn]; a function that can raise returns
      [result].
    - [print] appends a record to an output log that is threaded through
      the function. *)

From Stdlib Require Import ZArith NArith Ascii String Lia.
From stdpp Require Import base option list gmap strings pretty.

Local Open Scope Z_scope.

#[local] Set Warnings "-clear-no-such-hyp".

(** ** Python [str] builtins *)

Module PyStr.

Definition code (c : ascii) : N := N_of_ascii c.

Definition in_range (lo hi : N) (c : ascii) : bool :=
  ((lo <=? code c) && (code c <=? hi))%N.

(** [str.isspace] on one character: TAB..CR, FS..US, SPACE, NEL, NBSP. *)
Definition isspace (c : ascii) : bool :=
  in_range 9 13 c || in_range 28 32 c || (code c =? 133)%N || (code c =? 160)%N.

(** The blanks [int] skips around a literal: as [isspace] without FS..US. *)
Definition int_space (c : ascii) : bool :=
  in_range 9 13 c || (code c =? 32)%N || (code c =? 133)%N || (code c =? 160)%N.

Definition isdigit (c : ascii) : bool := in_range 48 57 c.

Definition digit_val (c : ascii) : Z := Z.of_N (code c) - 48.

(** [str.lower] on one character: A..Z and the Latin-1 capitals. *)
Definition lower_char (c : ascii) : ascii :=
  if in_range 65 90 c || in_range 192 214 c || in_range 216 222 c
  then ascii_of_N (code c + 32)
  else c.

Fixpoint lower (s : string) : string :=
  match s with
  | EmptyString => EmptyString
  | String c r => String (lower_char c) (lower r)
  end.

Fixpoint lstrip_with (p : ascii → bool) (s : string) : string :=
  match s with
  | EmptyString => EmptyString
  | String c r => if p c then lstrip_with p r else s
  end.

Fixpoint rstrip_with (p : ascii → bool) (s : string) : string :=
  match s with
  | EmptyString => EmptyString
  | String c r =>
      match rstrip_with p r with
      | EmptyString => if p c then EmptyString else String c EmptyString
      | r' => String c r'
      end
  end.

(** [s.strip()] *)
Definition strip (s : string) : string :=
  rstrip_with isspace (lstrip_with isspace s).

(** [s[n:]] for a constant [n ≥ 0] *)
Fixpoint drop (n : nat) (s : string) : string :=
  match n, s with
  | O, _ => s
  | S _, EmptyString => EmptyString
  | S n', String _ r => drop n' r
  end.

(** [s[:n]] for a constant [n ≥ 0] *)
Fixpoint take (n : nat) (s : string) : string :=
  match n, s with
  | O, _ => EmptyString
  | S _, EmptyString => EmptyString
  | S n', String c r => String c (take n' r)
  end.

(** [s[i:j]] for constants [0 ≤ i ≤ j]; a slice never raises, it clips. *)
Definition slice (i j : nat) (s : string) : string := take (j - i) (drop i s).

Fixpoint prefix (p s : string) : bool :=
  match p, s with
  | EmptyString, _ => true
  | String _ _, EmptyString => false
  | String a p', String b s' => Ascii.eqb a b && prefix p' s'
  end.

(** [needle in hay] *)
Fixpoint str_in (needle hay : string) : bool :=
  prefix needle hay ||
  match hay with
  | EmptyString => false
  | String _ r => str_in needle r
  end.

(** The first piece of [s] before [sep], and the pieces after it. *)
Fixpoint split_pieces (sep : ascii) (s : string) : string * list string :=
  match s with
  | EmptyString => (EmptyString, [])
  | String c r =>
      let '(h, t) := split_pieces sep r in
      if Ascii.eqb c sep then (EmptyString, h :: t) else (String c h, t)
  end.

(** [s.split(sep)] for a separator of one character, the only kind the
    program passes. *)
Definition split (sep : ascii) (s : string) : list string :=
  let '(h, t) := split_pieces sep s in h :: t.

(** [sep.join(l)] *)
Fixpoint join (sep : string) (l : list string) : string :=
  match l with
  | [] => EmptyString
  | [x] => x
  | x :: r => x +:+ sep +:+ join sep r
  end.

(** [s.count(c)] for one character *)
Fixpoint count (c : ascii) (s : string) : nat :=
  match s with
  | EmptyString => O
  | String a r => (if Ascii.eqb a c then 1 else 0) + count c r
  end%nat.

(** [s.rfind(c) + 1] for one character: the index just after the last
    occurrence, 0 when there is none. *)
Fixpoint after_last (c : ascii) (s : string) : nat :=
  match s with
  | EmptyString => O
  | String a r =>
      match after_last c r with
      | O => if Ascii.eqb a c then 1%nat else O
      | S k => S (S k)
      end
  end.

(** Digits of an [int] literal: one underscore is allowed between two
    digits, nowhere else. *)
Fixpoint int_digits (acc : Z) (after_digit : bool) (s : string) : option Z :=
  match s with
  | EmptyString => if after_digit then Some acc else None
  | String c r =>
      if isdigit c then int_digits (10 * acc + digit_val c) true r
      else if Ascii.eqb c "_" then
        (if after_digit then int_digits acc false r else None)
      else None
  end.

(** [int(s)]: [None] stands for [ValueError]. *)
Definition int (s : string) : option Z :=
  match rstrip_with int_space (lstrip_with int_space s) with
  | EmptyString => None
  | String c r as t =>
      if Ascii.eqb c "+" then int_digits 0 false r
      else if Ascii.eqb c "-" then Z.opp <$> int_digits 0 false r
      else int_digits 0 false t
  end.

End PyStr.

(** [os.path.basename] as [posixpath] has it: [p[p.rfind('/') + 1:]] *)
Definition basename (p : string) : string :=
  PyStr.drop (PyStr.after_last "/" p) p.

(** ** Keyword alternatives *)

(** [def word_alternatives(words)] *)
Definition word_alternatives (words : string) : list string :=
  if PyStr.str_in "/" words then PyStr.split "/" words else [words].

(** ** Exceptions, effects *)

Inductive exn : Type :=
  | ValueError          (* [int] of a text that is no integer literal *)
  | UnboundLocalError   (* a local variable read before any assignment *)
  | TypeError           (* subscript of [None] *)
  | IndexError          (* subscript past the end of a list *)
  | CollaboratorError (what : string). (* raised inside the speech client *)

Inductive result (A : Type) : Type :=
  | Ok (a : A)
  | Raise (e : exn).
Arguments Ok {A} a.
Arguments Raise {A} e.

(** A computation over a mutable state [S] that returns or raises.  The
    state reached when an exception leaves is kept: what was printed or
    sent before stays printed or sent. *)
Definition M (S A : Type) : Type := S → result A * S.

#[global] Instance M_ret {S} : MRet (M S) := λ A a s, (Ok a, s).

#[global] Instance M_bind {S} : MBind (M S) := λ A B k m s,
  match m s with
  | (Ok a, s') => k a s'
  | (Raise e, s') => (Raise e, s')
  end.

Definition raise {S A} (e : exn) : M S A := λ s, (Raise e, s).
Definition get {S} : M S S := λ s, (Ok s, s).
Definition modify {S} (f : S → S) : M S unit := λ s, (Ok tt, f s).

(** [for x in l: body(x)] *)
Fixpoint for_ {S X} (l : list X) (body : X → M S unit) : M S unit :=
  match l with
  | [] => mret tt
  | x :: r => body x ;; for_ r body
  end.

(** [for x in l: acc = body(acc, x)], for a loop that rebinds or mutates
    one local. *)
Fixpoint for_acc {S X A} (l : list X) (body : A → X → M S A) (acc : A) : M S A :=
  match l with
  | [] => mret acc
  | x :: r => acc' ← body acc x; for_acc r body acc'
  end.

(** What the program writes to standard output, one record per [print]
    call, holding the values printed rather than their formatted text. *)
Inductive output : Type :=
  | KeywordCountWarning (list_number sentence_number : Z)
                        (key_list : list (list string))
      (* [print(f'Have too many words in L{..} S{..}:', key_list)] *)
  | Recognizing (pretty_file : string)
  | FileHeader (pretty_file : string)
  | Transcript (text : string)
  | EmptyResult.

Class Console (S : Type) := write : output → S → S.

#[global] Instance stdout_console : Console (list output) := λ o out, out ++ [o].

Definition print {S} `{Console S} (o : output) : M S unit := modify (write o).

(** ** The keyword table *)

Definition SentenceKey : Type := list (list string).
Abbreviation AnswerKeyTable := (gmap (Z * Z) SentenceKey).

Definition int_or_raise {S} (s : string) : M S Z :=
  match PyStr.int s with
  | Some n => mret n
  | None => raise ValueError
  end.

Definition nonempty (w : string) : bool :=
  match w with EmptyString => false | String _ _ => true end.

(** The body of the loop of [ingest_spin_keyword_lists]. *)
Definition ingest_line (all_keyword_dict : AnswerKeyTable) (line : string)
  : M (list output) AnswerKeyTable :=
  let line := PyStr.lower (PyStr.strip line) in
  if negb (nonempty line) then mret all_keyword_dict (* continue *)
  else
    list_number ← int_or_raise (PyStr.slice 1 3 line);
    sentence_number ← int_or_raise (PyStr.slice 5 7 line);
    let key_words := PyStr.split " " (PyStr.drop 7 line) in
    let key_words := List.filter nonempty key_words in
    let key_list := word_alternatives <$> key_words in
    (if negb (length key_list =? 5)%nat
     then print (KeywordCountWarning list_number sentence_number key_list)
     else mret tt) ;;
    mret (<[(list_number, sentence_number) := key_list]> all_keyword_dict).

(** [def ingest_spin_keyword_lists(key_word_list)] *)
Definition ingest_spin_keyword_lists (key_word_list : list string)
  : M (list output) AnswerKeyTable :=
  for_acc key_word_list ingest_line ∅.

(** [key_word_list]: the embedded text after its [.split('\n')], that is
    its physical lines; the text starts and ends with a newline, so the
    first and the last line are empty. *)
Definition key_word_list : list string :=
  [ "";
    "L 0 S 0  white silk jacket any shoes";
    "L 0 S 1  child crawled into dense grass";
    "L 0 S 2  Footprints show/showed path took beach";
    "L 0 S 3  event near edge fresh air";
    "L 0 S 4  band Steel 3/three inches/in wide";
    "L 0 S 5  weight package seen high scale";
    "";
    "L 1 S 0  tear/Tara thin sheet yellow pad";
    "L 1 S 1  cruise Waters Sleek yacht fun";
    "L 1 S 2  streak color down left Edge";
    "L 1 S 3  done before boy/boys see it";
    "L 1 S 4  Crouch before jump miss mark";
    "L 1 S 5  square peg settle round hole";
    "";
    "L 2 S 0  pitch straw through door stable";
    "L 2 S 1  sink thing which pile/piled dishes";
    "L 2 S 2  post no bills office wall";
    "L 2 S 3  dimes showered/shower down all sides";
    "L 2 S 4  pick card slip under pack/Pact";
    "L 2 S 5  store jammed before sale start";
    "";
    "L 3 S 0  sense smell better than touch";
    "L 3 S 1  picked up dice second roll";
    "L 3 S 2  drop ashes worn/Warren Old rug";
    "L 3 S 3  couch cover Hall drapes blue";
    "L 3 S 4  stems Tall Glasses cracked broke";
    "L 3 S 5  cleats sank/sink deeply soft turf";
    "";
    "L 4 S 0  have better than wait Hope";
    "L 4 S 1  screen before fire kept Sparks";
    "L 4 S 2  thick glasses helped/help read print/prints";
    "L 4 S 3  chair looked strong no bottom";
    "L 4 S 4  told wild Tales/tails frighten him";
    "L 4 S 5  force equal would move Earth";
    "";
    "L 5 S 0  leaf drifts along slow spin";
    "L 5 S 1  pencil cut sharp both ends";
    "L 5 S 2  down road way grain farmer";
    "L 5 S 3  best method fix place clips";
    "L 5 S 4  if Mumble your speech lost";
    "L 5 S 5  toad Frog hard tell apart";
    "";
    "L 6 S 0  kite dipped swayed/suede stayed aloft/loft";
    "L 6 S 1  beatle/beetle drowned hot June/Tunes sun/son";
    "L 6 S 2  theft Pearl pin Kept Secret";
    "L 6 S 3  wide grin earned many friends";
    "L 6 S 4  hurdle pit aid long Pole";
    "L 6 S 5  Peep/keep under tent see Clown";
    "";
    "L 7 S 0  sun came light Eastern sky";
    "L 7 S 1  stale smell old beer lingers";
    "L 7 S 2  desk firm on shaky floor";
    "L 7 S 3  list names carved around base";
    "L 7 S 4  news struct/struck out Restless Minds";
    "L 7 S 5  Sand drifts/Drift over sill/sale house";
    "";
    "L 8 S 0  take shelter tent keep still";
    "L 8 S 1  Little Tales/tails they tell false";
    "L 8 S 2  press pedal with left foot";
    "L 8 S 3  black trunk fell from Landing/landings";
    "L 8 S 4  cheap clothes flashy/flash don't last";
    "L 8 S 5  night alarm roused/roust deep sleep";
    "";
    "L 9 S 0  dots light betray/betrayed black cat";
    "L 9 S 1  put chart mantle Tack down";
    "L 9 S 2  steady drip worse drenching rain";
    "L 9 S 3  flat pack less luggage space";
    "L 9 S 4  gloss/glass top made unfit read";
    "L 9 S 5  Seven Seals stamped great sheets";
    "";
    "L10 S 0  marsh freeze when cold enough";
    "L10 S 1  gray mare walked before colt/cold";
    "L10 S 2  bottles hold four/for kinds rum";
    "L10 S 3  wheeled/wheled bike past winding road";
    "L10 S 4  throw used paper cup plate";
    "L10 S 5  wall phone ring loud often";
    "";
    "L11 S 0  hinge door creaked old age";
    "L11 S 1  bright lanterns Gay dark lawn";
    "L11 S 2  offered proof  form large chart";
    "L11 S 3  their eyelids droop/drop want sleep";
    "L11 S 4  many ways do these things";
    "L11 S 5  we like see clear weather";
    "" ].

(** [all_keyword_dict = ingest_spin_keyword_lists(key_word_list)], run at
    import time with nothing printed yet. *)
Definition all_keyword_dict : result AnswerKeyTable * list output :=
  ingest_spin_keyword_lists key_word_list [].

(** ** The recognition response *)

(** The time values of a response are objects of the speech client; the
    program only calls their [total_seconds()] method, which gives a
    float.  Both types stay abstract. *)
Class TimeProto : Type := {
  Duration : Type;
  Seconds : Type;
  total_seconds : Duration → Seconds
}.

Module WordInfo.
Record t `{TimeProto} : Type := Build {
  word : string;
  start_offset : Duration;
  end_offset : Duration
}.
End WordInfo.

Module Alternative.
Record t `{TimeProto} : Type := Build {
  transcript : string;
  words : list WordInfo.t
}.
End Alternative.

Module RecognitionResult.
(** [alternatives] is [None] when the result carries no list there:
    [len] of it raises and its truth value is false. *)
Record t `{TimeProto} : Type := Build {
  alternatives : option (list Alternative.t)
}.
End RecognitionResult.

Module RecognizeResponse.
Record t `{TimeProto} : Type := Build {
  results : list RecognitionResult.t
}.
End RecognizeResponse.

(** [@dataclass class RecogResult] *)
Record RecogResult `{TimeProto} : Type := mkRecogResult {
  word : string;
  start_time : Seconds;
  end_time : Seconds
}.

(** [def parse_time(time_proto)] *)
Definition parse_time `{TimeProto} (time_proto : Duration) : Seconds :=
  total_seconds time_proto.

(** The locals of [parse_transcript] that live across loop iterations:
    [words], and [end_time], which has no value until the inner loop has
    run once. *)
Module Frame.
Record t `{TimeProto} : Type := Build {
  words : list RecogResult;
  end_time : option Seconds
}.
End Frame.

Section ParseTranscript.
Context `{TimeProto}.

Definition words_append (r : RecogResult) : M Frame.t unit :=
  modify (λ fr, Frame.Build _ (Frame.words fr ++ [r]) (Frame.end_time fr)).

Definition set_end_time (t : Seconds) : M Frame.t unit :=
  modify (λ fr, Frame.Build _ (Frame.words fr) (Some t)).

Definition read_end_time : M Frame.t Seconds :=
  fr ← get;
  match Frame.end_time fr with
  | Some t => mret t
  | None => raise UnboundLocalError
  end.

(** [a_result.alternatives[0]] *)
Definition first_alternative (a_result : RecognitionResult.t)
  : M Frame.t Alternative.t :=
  match RecognitionResult.alternatives a_result with
  | None => raise TypeError
  | Some [] => raise IndexError
  | Some (a :: _) => mret a
  end.

(** The [try: ok = len(a_result.alternatives) > 0 / except: ok = False]
    block. *)
Definition has_alternatives (a_result : RecognitionResult.t) : bool :=
  match RecognitionResult.alternatives a_result with
  | Some alts => (0 <? length alts)%nat
  | None => false
  end.

(** The body of the inner loop. *)
Definition parse_word (word : WordInfo.t) : M Frame.t unit :=
  let start_time := parse_time (WordInfo.start_offset word) in
  let end_time := parse_time (WordInfo.end_offset word) in
  set_end_time end_time ;;
  let recog_result :=
    mkRecogResult _ (PyStr.lower (WordInfo.word word)) start_time end_time in
  words_append recog_result.

(** The body of the outer loop. *)
Definition parse_result (a_result : RecognitionResult.t) : M Frame.t unit :=
  let ok := has_alternatives a_result in
  if negb ok then mret tt (* continue *)
  else
    best ← first_alternative a_result;
    for_ (Alternative.words best) parse_word ;;
    end_time ← read_end_time;
    words_append (mkRecogResult _ "." end_time end_time).

Definition parse_transcript_body (response : RecognizeResponse.t)
  : M Frame.t (list RecogResult) :=
  for_ (RecognizeResponse.results response) parse_result ;;
  fr ← get;
  mret (Frame.words fr).

(** [def parse_transcript(response)] *)
Definition parse_transcript (response : RecognizeResponse.t)
  : result (list RecogResult) :=
  fst (parse_transcript_body response (Frame.Build _ [] None)).

End ParseTranscript.

(** ** Batch recognition *)

(** The speech client as [recognize_all_spin] sees it: an engine whose
    [RecognizeFile(path, with_timings, debug)] answers with a response or
    raises, and may change the engine. *)
Class RecognitionEngine `{TimeProto} : Type := {
  Engine : Type;
  RecognizeFile :
    string → bool → bool → Engine → result RecognizeResponse.t * Engine
}.

(** One call of the collaborator, as the program made it. *)
Record call : Type := mkCall {
  audio_file_path : string;
  with_timings : bool;
  debug_flag : bool
}.

Module World.
Record t `{RecognitionEngine} : Type := Build {
  asr_engine : Engine;
  calls : list call;
  stdout : list output
}.
End World.

Section RecognizeAll.
Context `{RecognitionEngine}.

#[global] Instance world_console : Console World.t := λ o w,
  World.Build _ _ (World.asr_engine w) (World.calls w) (World.stdout w ++ [o]).

(** [asr_engine.RecognizeFile(f, with_timings=.., debug=..)] *)
Definition call_RecognizeFile (f : string) (timings debug : bool)
  : M World.t RecognizeResponse.t := λ w,
  let '(r, e) := RecognizeFile f timings debug (World.asr_engine w) in
  (r, World.Build _ _ e (World.calls w ++ [mkCall f timings debug])
                  (World.stdout w)).

Definition print_result (result : RecognitionResult.t) : M World.t unit :=
  match RecognitionResult.alternatives result with
  | Some (a :: _) => print (Transcript (Alternative.transcript a))
  | _ => print EmptyResult
  end.

(** The body of the loop of [recognize_all_spin]. *)
Definition recognize_one (debug : bool)
    (all_results : gmap string RecognizeResponse.t) (f : string)
  : M World.t (gmap string RecognizeResponse.t) :=
  if PyStr.str_in "Calibration" f then mret all_results (* continue *)
  else
    let pretty_file := basename f in
    (if debug then print (Recognizing pretty_file) else mret tt) ;;
    resp ← call_RecognizeFile f true debug;
    (if debug
     then print (FileHeader pretty_file) ;;
          for_ (RecognizeResponse.results resp) print_result
     else mret tt) ;;
    mret (<[pretty_file := resp]> all_results).

(** [def recognize_all_spin(all_wavs, asr_engine, debug=False)] *)
Definition recognize_all_spin (all_wavs : list string) (debug : bool)
  : M World.t (gmap string RecognizeResponse.t) :=
  for_acc all_wavs (recognize_one debug) ∅.

End RecognizeAll.

(** ** The recognition engine *)

(** [class RecognitionEngine]: the wrapper around the speech client.  The
    client, the file access ([fsspec]), the WAV reader ([scipy.io.wavfile])
    and the array conversion ([numpy]) are libraries: they are an
    interface here, acting on an outside world [Cloud], and each call of
    them may raise.  A request or configuration message is the record of
    the fields the program gives it.  The attribute [_parent], set to
    [None] by [__init__] and never read, is left out. *)

(** Reading an attribute that was never assigned, or an attribute of
    [None]. *)
Definition AttributeError : exn := CollaboratorError "AttributeError".

Inductive decoding_config : Type :=
  | auto_decoding_config
      (* [auto_decoding_config=AutoDetectDecodingConfig()] *)
  | explicit_decoding_config (encoding : string) (sample_rate_hertz : Z)
                             (audio_channel_count : Z).

Module RecognitionFeatures.
Record t : Type := Build {
  enable_word_time_offsets : bool;
  enable_automatic_punctuation : bool;
  enable_spoken_punctuation : bool
}.
End RecognitionFeatures.

Module RecognitionConfig.
Record t : Type := Build {
  decoding : decoding_config;
  language_codes : list string;
  model : string;
  features : RecognitionFeatures.t
}.
End RecognitionConfig.

Module RecognizeRequest.
Record t : Type := Build {
  recognizer : string;
  config : RecognitionConfig.t;
  content : list Byte.byte
}.
End RecognizeRequest.

Class SpeechLibrary `{TimeProto} : Type := {
  Client : Type;
  Samples : Type;
  Recognizers : Type;
  Cloud : Type;
  (** [SpeechClient(client_options=ClientOptions(api_endpoint=..))]; the
      argument is the endpoint, [None] for [ClientOptions()] *)
  SpeechClient : option string → Cloud → result Client * Cloud;
  (** [client.recognize(request)] *)
  client_recognize :
    Client → RecognizeRequest.t → Cloud → result RecognizeResponse.t * Cloud;
  (** [client.list_recognizers(ListRecognizersRequest(parent=..))] *)
  client_list_recognizers :
    Client → string → Cloud → result Recognizers * Cloud;
  (** [with fsspec.open(path, 'rb') as f: f.read()] *)
  fsspec_read : string → Cloud → result (list Byte.byte) * Cloud;
  (** [with fsspec.open(path, 'rb') as fp: wavfile.read(fp)]: the sample
      rate and the samples *)
  wavfile_read : string → Cloud → result (Z * Samples) * Cloud;
  (** [samples.astype(np.int16).tobytes()] *)
  astype_int16_tobytes : Samples → list Byte.byte
}.

(** The attributes of the engine object; [None] for an attribute that no
    assignment has made yet, except [_client], which [__init__] sets to
    [None]. *)
Module Self.
Record t `{SpeechLibrary} : Type := Build {
  _client : option Client;
  _model : option string;
  _project : option string;
  _spoken_punct : option bool;
  _auto_punct : option bool;
  _location : option string;
  _recognizer_config : option RecognitionConfig.t
}.
End Self.

(** The engine, the outside world, the requests that were sent to the
    client and the requests that were printed. *)
Module Outside.
Record t `{SpeechLibrary} : Type := Build {
  self : Self.t;
  cloud : Cloud;
  requests : list RecognizeRequest.t;
  printed : list RecognizeRequest.t
}.
End Outside.

(** [waveform: Union[bytes, np.ndarray]] *)
Inductive waveform_arg `{SpeechLibrary} : Type :=
  | as_bytes (b : list Byte.byte)
  | as_ndarray (a : Samples).

(** [s.endswith(suffix)] *)
Definition endswith (suffix s : string) : bool :=
  (String.length suffix <=? String.length s)%nat &&
  String.eqb (PyStr.drop (String.length s - String.length suffix) s) suffix.

Module EngineImpl.
Section Methods.
Context `{SpeechLibrary}.

(** [self.<attribute>] *)
Definition attr {A} (field : Self.t → option A) : M Outside.t A :=
  o ← get;
  match field (Outside.self o) with
  | Some a => mret a
  | None => raise AttributeError
  end.

(** [self.<attribute> = ..] *)
Definition assign (update : Self.t → Self.t) : M Outside.t unit :=
  modify (λ o, Outside.Build _ _ (update (Outside.self o)) (Outside.cloud o)
                 (Outside.requests o) (Outside.printed o)).

Definition set_client (v : Client) (s : Self.t) : Self.t :=
  Self.Build _ _ (Some v) (Self._model s) (Self._project s)
    (Self._spoken_punct s) (Self._auto_punct s) (Self._location s)
    (Self._recognizer_config s).

Definition set_model (v : string) (s : Self.t) : Self.t :=
  Self.Build _ _ (Self._client s) (Some v) (Self._project s)
    (Self._spoken_punct s) (Self._auto_punct s) (Self._location s)
    (Self._recognizer_config s).

Definition set_project (v : string) (s : Self.t) : Self.t :=
  Self.Build _ _ (Self._client s) (Self._model s) (Some v)
    (Self._spoken_punct s) (Self._auto_punct s) (Self._location s)
    (Self._recognizer_config s).

Definition set_spoken_punct (v : bool) (s : Self.t) : Self.t :=
  Self.Build _ _ (Self._client s) (Self._model s) (Self._project s)
    (Some v) (Self._auto_punct s) (Self._location s)
    (Self._recognizer_config s).

Definition set_auto_punct (v : bool) (s : Self.t) : Self.t :=
  Self.Build _ _ (Self._client s) (Self._model s) (Self._project s)
    (Self._spoken_punct s) (Some v) (Self._location s)
    (Self._recognizer_config s).

Definition set_location (v : string) (s : Self.t) : Self.t :=
  Self.Build _ _ (Self._client s) (Self._model s) (Self._project s)
    (Self._spoken_punct s) (Self._auto_punct s) (Some v)
    (Self._recognizer_config s).

Definition set_recognizer_config (v : RecognitionConfig.t) (s : Self.t)
  : Self.t :=
  Self.Build _ _ (Self._client s) (Self._model s) (Self._project s)
    (Self._spoken_punct s) (Self._auto_punct s) (Self._location s) (Some v).

(** A call into a library. *)
Definition library {A} (call : Cloud → result A * Cloud) : M Outside.t A :=
  λ o, let '(r, c) := call (Outside.cloud o) in
       (r, Outside.Build _ _ (Outside.self o) c (Outside.requests o)
             (Outside.printed o)).

(** The request goes out to the client. *)
Definition send (client : Client) (request : RecognizeRequest.t)
  : M Outside.t RecognizeResponse.t :=
  λ o, let '(r, c) := client_recognize client request (Outside.cloud o) in
       (r, Outside.Build _ _ (Outside.self o) c
             (Outside.requests o ++ [request]) (Outside.printed o)).

(** [self._client.recognize(request)] *)
Definition recognize (request : RecognizeRequest.t)
  : M Outside.t RecognizeResponse.t :=
  client ← attr Self._client;
  send client request.

(** [print(request)] *)
Definition print_request (request : RecognizeRequest.t) : M Outside.t unit :=
  modify (λ o, Outside.Build _ _ (Outside.self o) (Outside.cloud o)
                 (Outside.requests o) (Outside.printed o ++ [request])).

(** [__init__] *)
Definition init : Self.t := Self.Build _ _ None None None None None None None.

(** [def CreateSpeechClient(self, gcp_project, model='default_long')] *)
Definition CreateSpeechClient (gcp_project model : string) : M Outside.t unit :=
  assign (set_model model) ;;
  assign (set_project gcp_project) ;;
  assign (set_spoken_punct false) ;;
  assign (set_auto_punct false) ;;
  client_options ←
    (if String.eqb model "chirp"
     then assign (set_location "us-central1") ;;
          mret (Some "us-central1-speech.googleapis.com")
     else assign (set_location "global") ;; mret None);
  client ← library (SpeechClient client_options);
  assign (set_client client).

(** [f'projects/{self._project}/locations/{self._location}'] *)
Definition parent_name : M Outside.t string :=
  project ← attr Self._project;
  location ← attr Self._location;
  mret ("projects/" +:+ project +:+ "/locations/" +:+ location).

(** [def ListRecognizers(self, gcp_project)] *)
Definition ListRecognizers (gcp_project : string) : M Outside.t Recognizers :=
  o ← get;
  (match Self._client (Outside.self o) with
   | None => CreateSpeechClient gcp_project "default_long"
   | Some _ => mret tt
   end) ;;
  parent ← parent_name;
  client ← attr Self._client;
  library (client_list_recognizers client parent).

(** [def CreateRecognizer(self, with_timings=False, locale='en-US')] *)
Definition CreateRecognizer (with_timings : bool) (locale : string)
  : M Outside.t unit :=
  model ← attr Self._model;
  (if String.eqb model "medical_conversation"
   then assign (set_spoken_punct false) ;; assign (set_auto_punct true)
   else if String.eqb model "medical_dictation"
   then assign (set_spoken_punct true) ;; assign (set_auto_punct true)
   else assign (set_spoken_punct false) ;; assign (set_auto_punct false)) ;;
  model ← attr Self._model;
  auto_punct ← attr Self._auto_punct;
  spoken_punct ← attr Self._spoken_punct;
  assign (set_recognizer_config
            (RecognitionConfig.Build auto_decoding_config [locale] model
               (RecognitionFeatures.Build with_timings auto_punct spoken_punct))).

(** [f'projects/{..}/locations/{..}/recognizers/_'] *)
Definition recognizer_name : M Outside.t string :=
  parent ← parent_name;
  mret (parent +:+ "/recognizers/_").

(** A value that an [int32] field of a message takes. *)
Definition int32 (n : Z) : bool := (- 2 ^ 31 <=? n) && (n <? 2 ^ 31).

(** [cloud_speech.ExplicitDecodingConfig(encoding=.., sample_rate_hertz=..,
    audio_channel_count=..)]: the two numbers are [int32] fields, and the
    message raises [ValueError] when given a value out of that range. *)
Definition ExplicitDecodingConfig (encoding : string)
    (sample_rate_hertz audio_channel_count : Z) : M Outside.t decoding_config :=
  if int32 sample_rate_hertz && int32 audio_channel_count
  then mret (explicit_decoding_config encoding sample_rate_hertz
               audio_channel_count)
  else raise ValueError.

(** [def RecognizeWaveform(self, waveform, sample_rate=16000,
    with_timings=False, debug=False)] *)
Definition RecognizeWaveform (waveform : waveform_arg) (sample_rate : Z)
    (with_timings debug : bool) : M Outside.t RecognizeResponse.t :=
  let waveform :=
    match waveform with
    | as_ndarray a => astype_int16_tobytes a
    | as_bytes b => b
    end in
  recognizer_name ← recognizer_name;
  decoding ← ExplicitDecodingConfig "LINEAR16" sample_rate 1;
  model ← attr Self._model;
  auto_punct ← attr Self._auto_punct;
  spoken_punct ← attr Self._spoken_punct;
  assign (set_recognizer_config
            (RecognitionConfig.Build decoding
               ["en-US"] model
               (RecognitionFeatures.Build with_timings auto_punct spoken_punct))) ;;
  config ← attr Self._recognizer_config;
  let request := RecognizeRequest.Build recognizer_name config waveform in
  (if debug then print_request request else mret tt) ;;
  recognize request.

(** [def ReadAudioFile(self, audio_file_path)] *)
Definition ReadAudioFile (audio_file_path : string)
  : M Outside.t (list Byte.byte) :=
  library (fsspec_read audio_file_path).

(** [def RecognizeFile(self, audio_file_path, with_timings=False,
    debug=False)] *)
Definition RecognizeFile (audio_file_path : string) (with_timings debug : bool)
  : M Outside.t RecognizeResponse.t :=
  if endswith ".wav" audio_file_path then
    wav ← library (wavfile_read audio_file_path);
    let '(audio_fs, audio_data) := wav in
    RecognizeWaveform (as_ndarray audio_data) audio_fs with_timings false
  else
    recognizer_name ← recognizer_name;
    config ← attr Self._recognizer_config;
    content ← ReadAudioFile audio_file_path;
    let request := RecognizeRequest.Build recognizer_name config content in
    (if debug then print_request request else mret tt) ;;
    recognize request.

End Methods.
End EngineImpl.

(** The engine as [recognize_all_spin] is given it. *)
Definition cloud_engine `{SpeechLibrary} : RecognitionEngine :=
  {| Engine := Outside.t; RecognizeFile := EngineImpl.RecognizeFile |}.

(** ** The ffmpeg commands *)

(** The double quote character. *)
Definition dq : string := String "034" EmptyString.

(** [f'ffmpeg -i "{input}" -ar 22050 "{output}"'] *)
Definition ffmpeg_cmd (input output : string) : string :=
  "ffmpeg -i " +:+ dq +:+ input +:+ dq +:+ " -ar 22050 " +:+
  dq +:+ output +:+ dq.

(** The file names of list [i]; an integer in an f-string is written in
    decimal. *)
Definition clean_input (i : Z) : string :=
  pretty (23 + i) +:+ " Sep List " +:+ pretty i +:+ "_sentence.wav".

Definition clean_output (i : Z) : string :=
  "QuickSIN22/Clean List " +:+ pretty i +:+ ".wav".

Definition babble_input (i : Z) : string := "List " +:+ pretty i +:+ ".aif".

Definition babble_output (i : Z) : string :=
  "QuickSIN22/Babble List " +:+ pretty i +:+ ".wav".

(** The body of the loop of [generate_ffmpeg_cmds]: the lines it prints,
    the last one empty. *)
Definition ffmpeg_cmds_for (i : Z) : list string :=
  [ ffmpeg_cmd (clean_input i) (clean_output i);
    ffmpeg_cmd (babble_input i) (babble_output i);
    "" ].

(** [def generate_ffmpeg_cmds()]: the lines printed, for [i] in
    [range(1, 13)]. *)
Definition generate_ffmpeg_cmds : list string :=
  seqZ 1 12 ≫= ffmpeg_cmds_for.

(** * Vocabulary of the statements *)

(** A property of characters checked on all 256 of them. *)
Definition all_chars (p : ascii → bool) : bool :=
  forallb (λ n, p (ascii_of_nat n)) (seq 0 256).

(** [needle] occurs in [hay]. *)
Definition substring_of (needle hay : string) : Prop :=
  ∃ pre post, hay = pre +:+ needle +:+ post.

(** Every character of [s] passes [p]. *)
Fixpoint all_of (p : ascii → bool) (s : string) : bool :=
  match s with
  | EmptyString => true
  | String c r => p c && all_of p r
  end.

(** A keyword token: at least one character, none of them white space. *)
Definition keyword (t : string) : bool :=
  nonempty t && all_of (λ c, negb (PyStr.isspace c)) t.

(** [tokens_of sep body toks]: [body] is the keywords [toks] in order, with
    one or more separator characters between two of them and any number
    before the first and after the last. *)
Inductive tokens_of (sep : ascii → bool) : string → list string → Prop :=
  | tokens_end : tokens_of sep "" []
  | tokens_sep c s l :
      sep c = true → tokens_of sep s l → tokens_of sep (String c s) l
  | tokens_last t : keyword t = true → tokens_of sep t [t]
  | tokens_word t c s l :
      keyword t = true → sep c = true → tokens_of sep s l →
      tokens_of sep (t +:+ String c s) (t :: l).

(** The space character, the separator [split(' ')] knows. *)
Definition is_blank (c : ascii) : bool := Ascii.eqb c " ".

(** A number of one or two decimal digits, right-aligned in two columns. *)
Definition field_value (f : string) : option Z :=
  match f with
  | String a (String b EmptyString) =>
      if PyStr.isdigit b then
        if Ascii.eqb a " " then Some (PyStr.digit_val b)
        else if PyStr.isdigit a
             then Some (10 * PyStr.digit_val a + PyStr.digit_val b)
             else None
      else None
  | _ => None
  end.

(** What [field_value] promises about the code's reading of a field,
    as a test on the two characters of the field. *)
Definition field_check (a b : ascii) : bool :=
  let f := String a (String b "") in
  match field_value f with
  | None => true
  | Some n =>
      match PyStr.int f with
      | Some m => (n =? m) && (0 <=? n) && (n <? 100)
      | None => false
      end
      && String.eqb (PyStr.lower f) f && negb (PyStr.isspace b)
  end.

(** A line of the table: [L<list> S<sentence>] in fixed columns, then the
    keywords [toks] separated by characters of [sep]. *)
Definition table_line (sep : ascii → bool) (line : string) (l s : Z)
    (toks : list string) : Prop :=
  ∃ f1 f2 body,
    line = "L" +:+ f1 +:+ " S" +:+ f2 +:+ body ∧
    field_value f1 = Some l ∧ field_value f2 = Some s ∧
    tokens_of sep body toks.

(** A line that is empty once its white space is trimmed. *)
Definition blank_line (line : string) : Prop := PyStr.strip line = "".

(** The line as the table builder reads it: trimmed, then lowercased. *)
Definition trimmed (line : string) : string := PyStr.lower (PyStr.strip line).

(** The columns the two indices are read from, and the tokens of the rest
    of the line: split on the space character, empty tokens dropped. *)
Definition list_field (line : string) : string :=
  PyStr.slice 1 3 (trimmed line).

Definition sentence_field (line : string) : string :=
  PyStr.slice 5 7 (trimmed line).

Definition keyword_tokens (line : string) : list string :=
  List.filter nonempty (PyStr.split " " (PyStr.drop 7 (trimmed line))).

(** The key a line parses to, when both of its fields are integers. *)
Definition line_key (line : string) : option (Z * Z) :=
  l ← PyStr.int (list_field line);
  s ← PyStr.int (sentence_field line);
  Some (l, s).

(** The entry a line parses to. *)
Definition line_entry (line : string) : SentenceKey :=
  word_alternatives <$> keyword_tokens line.

(** What a line with key [k] makes the table builder print. *)
Definition line_warning (line : string) (k : Z * Z) : list output :=
  if (length (line_entry line) =? 5)%nat then []
  else [KeywordCountWarning k.1 k.2 (line_entry line)].

(** A line the table builder gets past: blank, or with a key. *)
Definition readable_line (line : string) : Prop :=
  blank_line line ∨ is_Some (line_key line).

(** The keys of a full table: 12 lists of 6 sentences. *)
Definition table_keys : list (Z * Z) :=
  l ← seqZ 0 12; s ← seqZ 0 6; [(l, s)].

(** The value of a computation that returned. *)
Definition returned {A} (default : A) (r : result A) : A :=
  match r with
  | Ok a => a
  | Raise _ => default
  end.

(** The table that [all_keyword_dict] holds. *)
Definition the_table : AnswerKeyTable := returned ∅ (fst all_keyword_dict).

(** Five keywords separated by TAB characters, after a good prefix. *)
Definition five_letters : list string := ["a"; "b"; "c"; "d"; "e"].

Definition tabbed_line : string :=
  "L 0 S 0  " +:+ PyStr.join (String "009" "") five_letters.

(** An entry as the table stores it for the keywords [toks]. *)
Definition entry_of (toks : list string) : SentenceKey :=
  word_alternatives <$> (PyStr.lower <$> toks).

(** A spelling that [str.lower] leaves as it is. *)
Definition lowercased (w : string) : Prop := PyStr.lower w = w.

(** The entry [parse_transcript] makes of one recognized word. *)
Definition recognized `{TimeProto} (w : WordInfo.t) : RecogResult :=
  mkRecogResult _ (PyStr.lower (WordInfo.word w))
    (total_seconds (WordInfo.start_offset w))
    (total_seconds (WordInfo.end_offset w)).

(** The sentinel entry at time [t]. *)
Definition sentinel `{TimeProto} (t : Seconds) : RecogResult :=
  mkRecogResult _ "." t t.

(** A result segment with one alternative. *)
Definition segment `{TimeProto} (text : string) (ws : list WordInfo.t)
  : RecognitionResult.t :=
  RecognitionResult.Build _ (Some [Alternative.Build _ text ws]).

(** A result segment that [parse_transcript] skips: no list of
    alternatives, or an empty one. *)
Definition no_alternatives `{TimeProto} (r : RecognitionResult.t) : Prop :=
  RecognitionResult.alternatives r = None ∨
  RecognitionResult.alternatives r = Some [].

(** The files [recognize_all_spin] sends to the recognizer. *)
Definition kept_files (all_wavs : list string) : list string :=
  List.filter (λ f, negb (PyStr.str_in "Calibration" f)) all_wavs.

(** [name] is what comes after the last ['/'] of [path], and the whole
    of a path that has no ['/']. *)
Definition last_part (path name : string) : Prop :=
  ¬ substring_of "/" name ∧
  (path = name ∨ ∃ dir, path = dir +:+ "/" +:+ name).

(** The engine after it was asked about the paths [fs] one after the
    other, as [recognize_all_spin] asks. *)
Definition engine_after `{RecognitionEngine} (debug : bool)
    (fs : list string) (e : Engine) : Engine :=
  foldl (λ e f, (RecognizeFile f true debug e).2) e fs.

(** The engine answers every one of the paths [fs] when asked about them
    one after the other. *)
Definition answered `{RecognitionEngine} (debug : bool) (e : Engine)
    (fs : list string) : Prop :=
  ∀ pre f post, fs = pre ++ f :: post →
    ∃ resp, (RecognizeFile f true debug (engine_after debug pre e)).1 = Ok resp.

(** A world in which nothing was sent or printed yet. *)
Definition fresh_world `{RecognitionEngine} (e : Engine) : World.t :=
  World.Build _ _ e [] [].

(** Sample data: offsets in microseconds, seconds as a pair of whole
    seconds and remaining microseconds; a recognizer that hears nothing. *)
Definition micro_time : TimeProto :=
  {| Duration := Z; Seconds := Z * Z;
     total_seconds := λ d, (d `div` 1000000, d `mod` 1000000) |}.


Definition sample_word (text : string) (from to : Z) : @WordInfo.t micro_time :=
  @WordInfo.Build micro_time text from to.

Definition silent_segment : @RecognitionResult.t micro_time :=
  @RecognitionResult.Build micro_time (Some []).

Definition sample_files : list string :=
  ["a.wav"; "Calibration_1.wav"; "b.wav"].


(** A recognizer that fails on the paths that contain ["bad"]. *)
Definition picky_engine : @RecognitionEngine micro_time :=
  {| Engine := unit;
     RecognizeFile := λ f _ _ e,
       (if PyStr.str_in "bad" f then Raise (CollaboratorError "bad file")
        else Ok (@RecognizeResponse.Build micro_time []), e) |}.

(** The words of the best alternative of a result segment; [None] for a
    segment without alternatives. *)
Definition best_words `{TimeProto} (r : RecognitionResult.t)
  : option (list WordInfo.t) :=
  match RecognitionResult.alternatives r with
  | Some (a :: _) => Some (Alternative.words a)
  | _ => None
  end.

(** The entries of a segment that has the words [ws]: the words, then a
    sentinel at the end of the last one. *)
Definition said_in `{TimeProto} (ws : list WordInfo.t) : list RecogResult :=
  (recognized <$> ws) ++
  match last ws with
  | Some w => [sentinel (total_seconds (WordInfo.end_offset w))]
  | None => []
  end.

(** Sample response: two spoken segments around a silent one. *)
Definition sample_segments : list (@RecognitionResult.t micro_time) :=
  [ segment "no way" [sample_word "No" 0 400000; sample_word "Way" 400000 700000];
    silent_segment;
    segment "yes" [sample_word "Yes" 900000 1500000] ].

(** What a line makes the table builder print. *)
Definition line_output (line : string) : list output :=
  match line_key line with
  | Some k => line_warning line k
  | None => []
  end.

(** A spelling as the table stores it: lowercased, with no ['/'] and no
    space in it. *)
Definition stored_spelling (w : string) : Prop :=
  lowercased w ∧ ¬ substring_of "/" w ∧ ¬ substring_of " " w.

(** The name of the recognizer a request is addressed to. *)
Definition recognizer_path (project location : string) : string :=
  "projects/" +:+ project +:+ "/locations/" +:+ location +:+ "/recognizers/_".

(** The configuration [RecognizeWaveform] makes. *)
Definition wav_config (rate : Z) (model : string) (timings auto spoken : bool)
  : RecognitionConfig.t :=
  RecognitionConfig.Build (explicit_decoding_config "LINEAR16" rate 1)
    ["en-US"] model (RecognitionFeatures.Build timings auto spoken).

(** An engine just made by [RecognitionEngine()], nothing sent or printed. *)
Definition fresh_engine `{SpeechLibrary} (c : Cloud) : Outside.t :=
  Outside.Build _ _ EngineImpl.init c [] [].

(** Whether a model is one of the two medical models. *)
Definition medical (model : string) : bool :=
  String.eqb model "medical_conversation" || String.eqb model "medical_dictation".

(** A library for the samples: files hold their own path as bytes, a WAV
    file is 8 kHz, the client answers every request with an empty
    response. *)
Definition echo_library : @SpeechLibrary micro_time :=
  {| Client := option string; Samples := string; Recognizers := unit;
     Cloud := unit;
     SpeechClient := λ endpoint c, (Ok endpoint, c);
     client_recognize := λ _ _ c, (Ok (@RecognizeResponse.Build micro_time []), c);
     client_list_recognizers := λ _ _ c, (Ok tt, c);
     fsspec_read := λ path c, (Ok (String.list_byte_of_string path), c);
     wavfile_read := λ path c, (Ok (8000, path), c);
     astype_int16_tobytes := String.list_byte_of_string |}.

(** The same library, with WAV files whose header gives a sample rate of
    2^31 Hz. *)
Definition shrill_library : @SpeechLibrary micro_time :=
  {| Client := option string; Samples := string; Recognizers := unit;
     Cloud := unit;
     SpeechClient := λ endpoint c, (Ok endpoint, c);
     client_recognize := λ _ _ c, (Ok (@RecognizeResponse.Build micro_time []), c);
     client_list_recognizers := λ _ _ c, (Ok tt, c);
     fsspec_read := λ path c, (Ok (String.list_byte_of_string path), c);
     wavfile_read := λ path c, (Ok (2 ^ 31, path), c);
     astype_int16_tobytes := String.list_byte_of_string |}.

(** The endpoint and the location [CreateSpeechClient] picks for a model. *)
Definition endpoint_of (model : string) : option string :=
  if String.eqb model "chirp" then Some "us-central1-speech.googleapis.com"
  else None.

Definition location_of (model : string) : string :=
  if String.eqb model "chirp" then "us-central1" else "global".

(** The configuration [CreateRecognizer] makes. *)
Definition auto_config (locale model : string) (timings : bool)
  : RecognitionConfig.t :=
  RecognitionConfig.Build auto_decoding_config [locale] model
    (RecognitionFeatures.Build timings (medical model)
       (String.eqb model "medical_dictation")).

(** A request that asks for word timings on mono 16-bit samples. *)
Definition timed_pcm_request (r : RecognizeRequest.t) : Prop :=
  RecognitionFeatures.enable_word_time_offsets
    (RecognitionConfig.features (RecognizeRequest.config r)) = true ∧
  RecognitionConfig.language_codes (RecognizeRequest.config r) = ["en-US"] ∧
  ∃ rate, RecognitionConfig.decoding (RecognizeRequest.config r) =
            explicit_decoding_config "LINEAR16" rate 1.

(** Sample engines: one with a client only, one with a recognizer too. *)
Definition client_engine : @Outside.t micro_time echo_library :=
  (@EngineImpl.CreateSpeechClient micro_time echo_library
     "hearing" "medical_dictation" (@fresh_engine micro_time echo_library tt)).2.

Definition ready_engine : @Outside.t micro_time echo_library :=
  (@EngineImpl.CreateRecognizer micro_time echo_library false "fr-FR"
     client_engine).2.

Definition shrill_engine : @Outside.t micro_time shrill_library :=
  (@EngineImpl.CreateSpeechClient micro_time shrill_library
     "hearing" "default_long" (@fresh_engine micro_time shrill_library tt)).2.

(** * Properties *)

(** ** Characters *)

Lemma all_chars_spec (p : ascii → bool) :
  all_chars p = true → ∀ c, p c = true.
Proof.
  unfold all_chars. rewrite forallb_forall. intros Hall c.
  rewrite <- (ascii_nat_embedding c). apply Hall.
  apply in_seq. pose proof (nat_ascii_bounded c). lia.
Qed.

Ltac by_all_chars :=
  let c := fresh "c" in
  intros c; pattern c;
  match goal with
  | |- (λ x, @?p x = true) _ => revert c; apply (all_chars_spec p)
  end; vm_compute; reflexivity.

Lemma lower_char_idem_b :
  ∀ c, Ascii.eqb (PyStr.lower_char (PyStr.lower_char c)) (PyStr.lower_char c) = true.
Proof. by_all_chars. Qed.

Lemma lower_char_eqb_space_b :
  ∀ c, Bool.eqb (Ascii.eqb (PyStr.lower_char c) " ") (Ascii.eqb c " ") = true.
Proof. by_all_chars. Qed.

Lemma lower_char_eqb_slash_b :
  ∀ c, Bool.eqb (Ascii.eqb (PyStr.lower_char c) "/") (Ascii.eqb c "/") = true.
Proof. by_all_chars. Qed.

Lemma lower_char_idem c :
  PyStr.lower_char (PyStr.lower_char c) = PyStr.lower_char c.
Proof. apply Ascii.eqb_eq, lower_char_idem_b. Qed.

Lemma lower_char_eqb_space c :
  Ascii.eqb (PyStr.lower_char c) " " = Ascii.eqb c " ".
Proof. apply Bool.eqb_prop, lower_char_eqb_space_b. Qed.

Lemma lower_char_eqb_slash c :
  Ascii.eqb (PyStr.lower_char c) "/" = Ascii.eqb c "/".
Proof. apply Bool.eqb_prop, lower_char_eqb_slash_b. Qed.

(** ** Strings: append, lower, split and join *)

Lemma str_app_nil_l s : "" +:+ s = s.
Proof. reflexivity. Qed.

Lemma str_app_cons c s t : String c s +:+ t = String c (s +:+ t).
Proof. reflexivity. Qed.

Lemma lower_app s t : PyStr.lower (s +:+ t) = PyStr.lower s +:+ PyStr.lower t.
Proof. induction s as [|c s IH]; [done|]. rewrite str_app_cons. simpl. by rewrite IH. Qed.

Lemma lower_idem s : PyStr.lower (PyStr.lower s) = PyStr.lower s.
Proof. induction s as [|c s IH]; [done|]. simpl. by rewrite lower_char_idem, IH. Qed.

Lemma split_cons sep c r :
  PyStr.split sep (String c r) =
    if Ascii.eqb c sep then "" :: PyStr.split sep r
    else String c (hd "" (PyStr.split sep r)) :: tl (PyStr.split sep r).
Proof.
  unfold PyStr.split. simpl. destruct (PyStr.split_pieces sep r) as [h t].
  by destruct (Ascii.eqb c sep).
Qed.

Lemma split_nonnil sep s : PyStr.split sep s ≠ [].
Proof. unfold PyStr.split. by destruct (PyStr.split_pieces sep s). Qed.

Lemma split_length sep s :
  length (PyStr.split sep s) = S (PyStr.count sep s).
Proof.
  induction s as [|c r IH]; [done|]. rewrite split_cons. simpl.
  destruct (Ascii.eqb c sep); simpl; [by rewrite IH|].
  pose proof (split_nonnil sep r). destruct (PyStr.split sep r); naive_solver.
Qed.

Lemma join_split sep s : PyStr.join (String sep "") (PyStr.split sep s) = s.
Proof.
  induction s as [|c r IH]; [done|]. rewrite split_cons.
  pose proof (split_nonnil sep r) as Hne.
  destruct (Ascii.eqb_spec c sep) as [->|Hc].
  - destruct (PyStr.split sep r) as [|h t] eqn:E; [done|].
    change (PyStr.join (String sep "") ("" :: h :: t))
      with ("" +:+ String sep "" +:+ PyStr.join (String sep "") (h :: t)).
    by rewrite IH.
  - destruct (PyStr.split sep r) as [|h t] eqn:E; [done|]. simpl hd; simpl tl.
    rewrite <- IH. destruct t; [done|].
    change (PyStr.join ?s (?x :: ?y :: ?l))
      with (x +:+ s +:+ PyStr.join s (y :: l)).
    by rewrite str_app_cons.
Qed.

Lemma split_pieces_free sep s :
  Forall (λ p, PyStr.count sep p = O) (PyStr.split sep s).
Proof.
  induction s as [|c r IH]; [by repeat constructor|]. rewrite split_cons.
  pose proof (split_nonnil sep r) as Hne.
  destruct (Ascii.eqb c sep) eqn:Ec.
  - by constructor.
  - destruct (PyStr.split sep r) as [|h t]; [done|]. simpl.
    inversion IH; subst. constructor; [|done]. simpl. by rewrite Ec.
Qed.

Lemma split_free sep s : PyStr.count sep s = O → PyStr.split sep s = [s].
Proof.
  induction s as [|c r IH]; [done|]. simpl. rewrite split_cons.
  destruct (Ascii.eqb c sep); [done|]. simpl. intros Hr. by rewrite IH.
Qed.

Lemma split_app_sep sep a b :
  PyStr.count sep a = O →
  PyStr.split sep (a +:+ String sep b) = a :: PyStr.split sep b.
Proof.
  induction a as [|c a IH]; simpl.
  - intros _. rewrite str_app_nil_l, split_cons. by rewrite Ascii.eqb_refl.
  - rewrite str_app_cons, split_cons. destruct (Ascii.eqb c sep); [done|].
    simpl. intros Ha. by rewrite IH.
Qed.

(** A list of [sep]-free pieces is what [split] gives back on its join:
    the pieces of a string are unique. *)
Lemma split_join sep l :
  l ≠ [] → Forall (λ p, PyStr.count sep p = O) l →
  PyStr.split sep (PyStr.join (String sep "") l) = l.
Proof.
  induction l as [|x l IH]; [done|]. intros _ Hall.
  inversion Hall as [|? ? Hx Hl]; subst.
  destruct l as [|y l]; [by apply split_free|].
  change (PyStr.join ?s (?x :: ?y :: ?l))
    with (x +:+ s +:+ PyStr.join s (y :: l)).
  rewrite str_app_cons, str_app_nil_l, split_app_sep by done. by rewrite IH.
Qed.

Lemma prefix_spec p s : PyStr.prefix p s = true ↔ ∃ t, s = p +:+ t.
Proof.
  revert s. induction p as [|a p IH]; intros s; simpl.
  - split; [by exists s|done].
  - destruct s as [|b s].
    + split; [done|]. by intros [t Ht].
    + rewrite andb_true_iff, Ascii.eqb_eq, IH. split.
      * intros [-> [t ->]]. by exists t.
      * intros [t Ht]. rewrite str_app_cons in Ht. injection Ht as -> ->. eauto.
Qed.

Lemma str_in_spec needle hay :
  PyStr.str_in needle hay = true ↔ substring_of needle hay.
Proof.
  unfold substring_of. induction hay as [|c hay IH]; simpl.
  - rewrite orb_false_r, prefix_spec. split.
    + intros [t Ht]. by exists "", t.
    + intros [[|??] [post Hp]]; [by exists post|done].
  - rewrite orb_true_iff, prefix_spec, IH. split.
    + intros [[t Ht]|(pre & post & ->)].
      * by exists "", t.
      * by exists (String c pre), post.
    + intros [[|a pre] [post Hp]].
      * left. by exists post.
      * right. rewrite str_app_cons in Hp. injection Hp as -> ->. by exists pre, post.
Qed.

Lemma str_in_char c s :
  PyStr.str_in (String c "") s = negb (PyStr.count c s =? 0)%nat.
Proof.
  induction s as [|a s IH]; [done|]. simpl. rewrite IH.
  rewrite (Ascii.eqb_sym c a).
  by destruct (Ascii.eqb a c).
Qed.

Lemma word_alternatives_split words :
  word_alternatives words = PyStr.split "/" words.
Proof.
  unfold word_alternatives. rewrite str_in_char.
  destruct (PyStr.count "/" words) eqn:E; simpl; [|done].
  by rewrite split_free.
Qed.

(** ** Trimming *)

Lemma rstrip_app p a b :
  PyStr.rstrip_with p (a +:+ b) =
    match PyStr.rstrip_with p b with
    | EmptyString => PyStr.rstrip_with p a
    | r => a +:+ r
    end.
Proof.
  induction a as [|c a IH]; simpl.
  - rewrite str_app_nil_l. by destruct (PyStr.rstrip_with p b).
  - rewrite IH.
    destruct (PyStr.rstrip_with p b) eqn:Eb; [done|].
    by destruct a.
Qed.

Lemma rstrip_app_keep p x c b :
  p c = false →
  PyStr.rstrip_with p (x +:+ String c b) =
    x +:+ String c (PyStr.rstrip_with p b).
Proof.
  intros Hc. rewrite rstrip_app. simpl.
  destruct (PyStr.rstrip_with p b); by rewrite ?Hc.
Qed.

Lemma all_of_rstrip p s :
  all_of (λ c, negb (p c)) s = true → PyStr.rstrip_with p s = s.
Proof.
  induction s as [|c s IH]; [done|]. simpl.
  intros [Hc Hs]%andb_prop. rewrite IH by done.
  apply negb_true_iff in Hc. rewrite Hc. by destruct s.
Qed.

Lemma keyword_inv t :
  keyword t = true →
  ∃ c r, t = String c r ∧ PyStr.isspace c = false ∧
         all_of (λ c, negb (PyStr.isspace c)) t = true.
Proof.
  unfold keyword. intros [Hn Ha]%andb_prop. destruct t as [|c r]; [done|].
  exists c, r. split_and!; [done| |done].
  simpl in Ha. apply andb_prop in Ha as [Hc _]. by apply negb_true_iff.
Qed.

Lemma rstrip_keyword t :
  keyword t = true → PyStr.rstrip_with PyStr.isspace t = t.
Proof. intros (c & r & _ & _ & Ha)%keyword_inv. by apply all_of_rstrip. Qed.

(** Trimming the end of a line keeps its keywords. *)
Lemma tokens_rstrip sep s toks :
  (∀ c, sep c = true → PyStr.isspace c = true) →
  tokens_of sep s toks →
  tokens_of sep (PyStr.rstrip_with PyStr.isspace s) toks.
Proof.
  intros Hsep. induction 1 as [|c s l Hc Hs IH|t Ht|t c s l Ht Hc Hs IH].
  - constructor.
  - simpl. destruct (PyStr.rstrip_with PyStr.isspace s) eqn:E.
    + by rewrite (Hsep c Hc).
    + by constructor.
  - rewrite rstrip_keyword by done. by apply tokens_last.
  - rewrite rstrip_app. simpl.
    destruct (PyStr.rstrip_with PyStr.isspace s) eqn:E.
    + rewrite (Hsep c Hc), rstrip_keyword by done.
      inversion IH as [| |t' Ht'|t' c' s' l' _ _ _ Heq]; subst.
      * by apply tokens_last.
      * done.
      * by destruct t'.
    + by apply tokens_word.
Qed.

(** ** Keywords of a line *)

Lemma blank_is_space c : is_blank c = true → c = " "%char.
Proof. apply Ascii.eqb_eq. Qed.

Lemma blank_isspace c : is_blank c = true → PyStr.isspace c = true.
Proof. by intros ->%blank_is_space. Qed.

Lemma keyword_lower t :
  keyword t = true →
  PyStr.count " " (PyStr.lower t) = O ∧ nonempty (PyStr.lower t) = true.
Proof.
  intros (c & r & -> & _ & Ha)%keyword_inv. split; [|done].
  revert Ha. generalize (String c r). clear. intros t.
  induction t as [|c t IH]; [done|]. simpl.
  intros [Hc Ht]%andb_prop. rewrite IH by done.
  rewrite lower_char_eqb_space.
  destruct (Ascii.eqb_spec c " ") as [->|]; [done|done].
Qed.

Lemma tokens_split s toks :
  tokens_of is_blank s toks →
  List.filter nonempty (PyStr.split " " (PyStr.lower s)) = PyStr.lower <$> toks.
Proof.
  induction 1 as [|c s l Hc Hs IH|t Ht|t c s l Ht Hc Hs IH].
  - done.
  - apply blank_is_space in Hc as ->.
    change (PyStr.lower (String " " s)) with (String " " (PyStr.lower s)).
    rewrite split_cons. simpl. by rewrite IH.
  - destruct (keyword_lower t Ht) as [Hfree Hne].
    rewrite split_free by done. simpl. by rewrite Hne.
  - destruct (keyword_lower t Ht) as [Hfree Hne].
    apply blank_is_space in Hc as ->. rewrite lower_app.
    change (PyStr.lower (String " " s)) with (String " " (PyStr.lower s)).
    rewrite split_app_sep by done. simpl. by rewrite Hne, IH.
Qed.

(** ** The number fields *)

Lemma field_check_all a b : field_check a b = true.
Proof.
  assert (∀ a, all_chars (field_check a) = true) as Hall.
  { apply (all_chars_spec (λ a, all_chars (field_check a))).
    vm_compute. reflexivity. }
  apply (all_chars_spec (field_check a)), Hall.
Qed.

Lemma field_value_inv f n :
  field_value f = Some n →
  ∃ a b, f = String a (String b "") ∧ PyStr.int f = Some n ∧
         PyStr.lower f = f ∧ PyStr.isspace b = false ∧ 0 ≤ n < 100.
Proof.
  intros Hf. destruct f as [|a [|b [|]]]; try done.
  exists a, b. pose proof (field_check_all a b) as Hc.
  unfold field_check in Hc. rewrite Hf in Hc.
  destruct (PyStr.int _) as [m|]; [|done].
  apply andb_prop in Hc as [[Hc Hl]%andb_prop Hs].
  apply andb_prop in Hc as [[Hm H0]%andb_prop H100].
  apply String.eqb_eq in Hl. apply negb_true_iff in Hs.
  apply Z.eqb_eq in Hm as <-. split_and!; try done; lia.
Qed.

(** ** One line of the table *)

Lemma strip_table_line a1 b1 a2 b2 body :
  PyStr.isspace b2 = false →
  PyStr.strip ("L" +:+ String a1 (String b1 "") +:+ " S" +:+
               String a2 (String b2 "") +:+ body) =
    "L" +:+ String a1 (String b1 "") +:+ " S" +:+
    String a2 (String b2 "") +:+ PyStr.rstrip_with PyStr.isspace body.
Proof.
  intros Hb2. unfold PyStr.strip.
  apply (rstrip_app_keep PyStr.isspace
           (String "L" (String a1 (String b1 (String " " (String "S"
              (String a2 ""))))))
           b2 body Hb2).
Qed.

Lemma ingest_line_blank d line out :
  blank_line line → ingest_line d line out = (Ok d, out).
Proof. unfold blank_line, ingest_line. by intros ->. Qed.

Lemma ingest_line_keyed d line k out :
  line_key line = Some k →
  ingest_line d line out =
    (Ok (<[k := line_entry line]> d), out ++ line_warning line k).
Proof.
  unfold line_key, line_warning, line_entry, keyword_tokens, list_field,
    sentence_field, trimmed, ingest_line.
  destruct (PyStr.lower (PyStr.strip line)) as [|c u] eqn:Eu; [done|].
  cbn [nonempty negb]. unfold int_or_raise, mbind, M_bind, mret, M_ret.
  destruct (PyStr.int (PyStr.slice 1 3 (String c u))) as [l|]; [|done].
  destruct (PyStr.int (PyStr.slice 5 7 (String c u))) as [s|]; [|done].
  cbn [option_bind]. intros [= <-]. cbn [fst snd].
  destruct (length _ =? 5)%nat; cbn [negb]; [by rewrite app_nil_r|done].
Qed.

(** A table line parses to its key and to its keywords, lowercased. *)
Lemma table_line_read line l s toks :
  table_line is_blank line l s toks →
  line_key line = Some (l, s) ∧ keyword_tokens line = PyStr.lower <$> toks.
Proof.
  intros (f1 & f2 & body & -> & Hf1 & Hf2 & Htoks).
  apply field_value_inv in Hf1 as (a1 & b1 & -> & Hi1 & Hl1 & _ & _).
  apply field_value_inv in Hf2 as (a2 & b2 & -> & Hi2 & Hl2 & Hb2 & _).
  unfold line_key, keyword_tokens, list_field, sentence_field, trimmed.
  rewrite strip_table_line by done.
  rewrite !lower_app, Hl1, Hl2.
  apply (tokens_rstrip _ _ _ blank_isspace), tokens_split in Htoks.
  change (PyStr.lower "L") with "l". change (PyStr.lower " S") with " s".
  rewrite !str_app_cons, !str_app_nil_l.
  cbn [PyStr.slice PyStr.take PyStr.drop Nat.sub].
  by rewrite Hi1, Hi2, Htoks.
Qed.

Lemma ingest_line_table d line l s toks out :
  table_line is_blank line l s toks →
  ingest_line d line out =
    (Ok (<[(l, s) := entry_of toks]> d),
     out ++ if (length toks =? 5)%nat then []
            else [KeywordCountWarning l s (entry_of toks)]).
Proof.
  intros [Hk Ht]%table_line_read. rewrite (ingest_line_keyed _ _ _ _ Hk).
  unfold line_warning, line_entry, entry_of. rewrite Ht.
  by rewrite !length_fmap.
Qed.

(** ** Loops *)

Lemma for_acc_app {S X A} (l1 l2 : list X) (body : A → X → M S A) acc st :
  for_acc (l1 ++ l2) body acc st =
    match for_acc l1 body acc st with
    | (Ok a, st') => for_acc l2 body a st'
    | (Raise e, st') => (Raise e, st')
    end.
Proof.
  revert acc st. induction l1 as [|x l1 IH]; intros acc st; [done|].
  simpl. unfold mbind, M_bind. destruct (body acc x st) as [[a|e] st']; [|done].
  apply IH.
Qed.

Lemma for_app {S X} (l1 l2 : list X) (body : X → M S unit) st :
  for_ (l1 ++ l2) body st =
    match for_ l1 body st with
    | (Ok _, st') => for_ l2 body st'
    | (Raise e, st') => (Raise e, st')
    end.
Proof.
  revert st. induction l1 as [|x l1 IH]; intros st; [done|].
  simpl. unfold mbind, M_bind. destruct (body x st) as [[[]|e] st']; [|done].
  apply IH.
Qed.

(** ** The table build *)

Lemma ingest_line_readable d line out :
  readable_line line →
  ∃ d' ext, ingest_line d line out = (Ok d', out ++ ext) ∧
            ∀ k, is_Some (d !! k) → is_Some (d' !! k).
Proof.
  intros [Hb|[k Hk]].
  - exists d, []. rewrite app_nil_r. by rewrite ingest_line_blank.
  - eexists _, _. split; [by apply ingest_line_keyed|].
    intros k' Hk'. rewrite lookup_insert. by case_decide.
Qed.

Lemma ingest_readable lines d out :
  Forall readable_line lines →
  ∃ d' ext, for_acc lines ingest_line d out = (Ok d', out ++ ext) ∧
            ∀ k, is_Some (d !! k) → is_Some (d' !! k).
Proof.
  intros Hall. revert d out.
  induction Hall as [|line lines Hl _ IH]; intros d out.
  - exists d, []. by rewrite app_nil_r.
  - destruct (ingest_line_readable d line out Hl) as (d1 & e1 & E1 & K1).
    destruct (IH d1 (out ++ e1)) as (d2 & e2 & E2 & K2).
    exists d2, (e1 ++ e2). simpl. unfold mbind, M_bind. rewrite E1, E2.
    rewrite app_assoc. eauto.
Qed.



Lemma tokens_of_join sep c toks :
  sep c = true → forallb keyword toks = true →
  tokens_of sep (PyStr.join (String c "") toks) toks.
Proof.
  intros Hc. induction toks as [|t toks IH]; [constructor|].
  simpl. intros [Ht Hts]%andb_prop. destruct toks as [|t' toks].
  - by apply tokens_last.
  - apply tokens_word; auto.
Qed.

(** Pieces of a lowercased string are lowercased. *)
Lemma split_slash_lower s :
  PyStr.split "/" (PyStr.lower s) = PyStr.lower <$> PyStr.split "/" s.
Proof.
  induction s as [|c r IH]; [done|].
  change (PyStr.lower (String c r)) with (String (PyStr.lower_char c) (PyStr.lower r)).
  rewrite !split_cons, lower_char_eqb_slash, IH.
  destruct (Ascii.eqb c "/"); [done|].
  pose proof (split_nonnil "/" r). by destruct (PyStr.split "/" r).
Qed.

Lemma entry_of_lowercased toks : Forall (Forall lowercased) (entry_of toks).
Proof.
  unfold entry_of. rewrite <- list_fmap_compose. apply Forall_fmap, Forall_true.
  intros t. simpl. rewrite word_alternatives_split, split_slash_lower.
  apply Forall_fmap, Forall_true. intros w. apply lower_idem.
Qed.

Lemma table_line_spaced f1 f2 l s toks :
  field_value f1 = Some l → field_value f2 = Some s →
  forallb keyword toks = true →
  table_line is_blank
    ("L" +:+ f1 +:+ " S" +:+ f2 +:+ "  " +:+ PyStr.join " " toks) l s toks.
Proof.
  intros H1 H2 Hk. exists f1, f2, ("  " +:+ PyStr.join " " toks).
  split_and!; try done.
  do 2 (apply tokens_sep; [done|]). by apply tokens_of_join.
Qed.

Lemma count_zero_iff c s :
  PyStr.count c s = O ↔ ¬ substring_of (String c "") s.
Proof.
  rewrite <- str_in_spec, str_in_char.
  destruct (PyStr.count c s); simpl; split; done.
Qed.

Lemma split_app sep a b :
  PyStr.split sep (a +:+ String sep b) = PyStr.split sep a ++ PyStr.split sep b.
Proof.
  induction a as [|c a IH].
  - rewrite str_app_nil_l, split_cons. by rewrite Ascii.eqb_refl.
  - rewrite str_app_cons, !split_cons, IH.
    pose proof (split_nonnil sep a).
    destruct (Ascii.eqb c sep); [done|]. by destruct (PyStr.split sep a).
Qed.

(** ** Claims about the keyword table *)

(** C3: [word_alternatives] splits its argument on ['/']: the spellings it
    returns are free of ['/'] and, joined by ['/'], give the argument back
    character for character (so case is kept), and no other list of
    ['/']-free strings does.  With a ['/'] in the argument this is
    [split('/')]; without one it is the argument alone.  The two examples
    of the specification hold. *)
Theorem word_alternatives_spec (token : string) :
  PyStr.join "/" (word_alternatives token) = token ∧
  Forall (λ w, ¬ substring_of "/" w) (word_alternatives token) ∧
  (∀ l, l ≠ [] → Forall (λ w, ¬ substring_of "/" w) l →
        PyStr.join "/" l = token → l = word_alternatives token) ∧
  (substring_of "/" token → word_alternatives token = PyStr.split "/" token) ∧
  (¬ substring_of "/" token → word_alternatives token = [token]) ∧
  word_alternatives "tear/Tara" = ["tear"; "Tara"] ∧
  word_alternatives "jacket" = ["jacket"].
Proof.
  rewrite word_alternatives_split. split_and!; try done.
  - apply join_split.
  - eapply Forall_impl; [apply split_pieces_free|].
    intros w. apply count_zero_iff.
  - intros l Hne Hall <-. symmetry. apply split_join; [done|].
    eapply Forall_impl; [exact Hall|]. intros w. apply count_zero_iff.
  - intros Hno%count_zero_iff. by apply split_free.
Qed.

Lemma word_alternatives_spec_witness :
  substring_of "/" "show/showed" ∧
  word_alternatives "show/showed" = PyStr.split "/" "show/showed".
Proof.
  assert (substring_of "/" "show/showed") as Hs by (by exists "show", "showed").
  split; [exact Hs|].
  destruct (word_alternatives_spec "show/showed") as (_ & _ & _ & H & _).
  exact (H Hs).
Defined.

(** C10: a string with [n ≥ 1] occurrences of ['/'] gives [n + 1]
    spellings.  The spellings on the two sides of a ['/'] are those of the
    text before it followed by those of the text after it, and the empty
    string has the empty spelling: a leading, trailing or doubled ['/']
    puts an empty spelling in the list, as in
    [word_alternatives("word/") = ["word", ""]]. *)
Theorem word_alternatives_count :
  (∀ token n, PyStr.count "/" token = n → (1 ≤ n)%nat →
     length (word_alternatives token) = S n) ∧
  (∀ a b, word_alternatives (a +:+ "/" +:+ b) =
            word_alternatives a ++ word_alternatives b) ∧
  word_alternatives "" = [""] ∧
  (∀ b, head (word_alternatives ("/" +:+ b)) = Some "") ∧
  (∀ a, last (word_alternatives (a +:+ "/")) = Some "") ∧
  (∀ a b, "" ∈ word_alternatives (a +:+ "//" +:+ b)) ∧
  word_alternatives "word/" = ["word"; ""].
Proof.
  split_and!; try done.
  - intros token n <- _. by rewrite word_alternatives_split, split_length.
  - intros a b. rewrite !word_alternatives_split. apply split_app.
  - intros b. by rewrite word_alternatives_split, str_app_cons, split_cons.
  - intros a. rewrite word_alternatives_split.
    rewrite (split_app "/" a ""). apply last_snoc.
  - intros a b. rewrite word_alternatives_split.
    rewrite !str_app_cons, str_app_nil_l.
    rewrite (split_app "/" a (String "/" b)), split_cons. simpl.
    apply elem_of_app. right. by left.
Qed.

Lemma word_alternatives_count_witness :
  PyStr.count "/" "3/three" = 1%nat ∧
  length (word_alternatives "3/three") = 2%nat.
Proof.
  split; [reflexivity|].
  exact (proj1 word_alternatives_count "3/three" 1%nat eq_refl (le_n 1)).
Defined.

Lemma all_keyword_dict_eq : all_keyword_dict = (Ok the_table, []).
Proof. vm_compute. reflexivity. Qed.

Lemma elem_of_table_keys l s :
  (l, s) ∈ table_keys ↔ 0 ≤ l ≤ 11 ∧ 0 ≤ s ≤ 5.
Proof.
  unfold table_keys. rewrite list_elem_of_bind. split.
  - intros (l' & (s' & [= -> ->]%list_elem_of_singleton & Hs)%list_elem_of_bind & Hl).
    apply elem_of_seqZ in Hs, Hl. lia.
  - intros [Hl Hs]. exists l. split; [|apply elem_of_seqZ; lia].
    apply list_elem_of_bind. exists s. split; [by left|apply elem_of_seqZ; lia].
Qed.

(** C1: building the table from the embedded text returns, and the table
    has exactly 72 entries, one for each pair of a list index in [0,11]
    and a sentence index in [0,5] and none for any other key. *)
Theorem all_keyword_dict_72 :
  ∃ d out,
    all_keyword_dict = (Ok d, out) ∧
    size d = 72%nat ∧
    ∀ l s, is_Some (d !! (l, s)) ↔ 0 ≤ l ≤ 11 ∧ 0 ≤ s ≤ 5.
Proof.
  exists the_table, []. split_and!.
  - apply all_keyword_dict_eq.
  - vm_compute. reflexivity.
  - intros l s. rewrite <- elem_of_table_keys. split.
    + intros [v Hv]. apply elem_of_map_to_list in Hv.
      assert (forallb (λ kv, bool_decide (kv.1 ∈ table_keys))
                      (map_to_list the_table) = true) as Hall
        by (vm_compute; reflexivity).
      rewrite forallb_forall in Hall.
      apply list_elem_of_In, Hall in Hv. by apply bool_decide_eq_true in Hv.
    + intros Hin.
      assert (forallb (λ k, bool_decide (is_Some (the_table !! k)))
                      table_keys = true) as Hall
        by (vm_compute; reflexivity).
      rewrite forallb_forall in Hall.
      apply list_elem_of_In, Hall in Hin. by apply bool_decide_eq_true in Hin.
Qed.

(** C2, as the code has it: a line [L<list> S<sentence>] in its fixed
    columns, followed by exactly five keywords separated by one or more
    space characters, is stored under the key [(list, sentence)] as exactly
    five entries, one for each keyword in order, made of the lowercased
    keyword split on ['/'], so every spelling is lowercased; the empty
    tokens between repeated spaces are gone and nothing is printed. *)
Theorem ingest_five_keywords (line : string) (l s : Z) (toks : list string)
    (d : AnswerKeyTable) (out : list output) :
  table_line is_blank line l s toks →
  length toks = 5%nat →
  ∃ key_list,
    ingest_line d line out = (Ok (<[(l, s) := key_list]> d), out) ∧
    ingest_spin_keyword_lists [line] out = (Ok {[(l, s) := key_list]}, out) ∧
    key_list = word_alternatives <$> (PyStr.lower <$> toks) ∧
    length key_list = 5%nat ∧
    Forall (Forall lowercased) key_list.
Proof.
  intros Hline Hlen. exists (entry_of toks).
  pose proof (ingest_line_table d line l s toks out Hline) as Hd.
  pose proof (ingest_line_table ∅ line l s toks out Hline) as He.
  rewrite Hlen in Hd, He. simpl in Hd, He.
  rewrite app_nil_r in Hd, He. split_and!.
  - exact Hd.
  - unfold ingest_spin_keyword_lists. simpl. unfold mbind, M_bind.
    by rewrite He.
  - done.
  - unfold entry_of. by rewrite !length_fmap.
  - apply entry_of_lowercased.
Qed.

Lemma ingest_five_keywords_witness :
  ∃ key_list,
    ingest_spin_keyword_lists ["L 1 S 0  tear/Tara thin sheet yellow pad"] [] =
      (Ok {[(1, 0) := key_list]}, []) ∧
    key_list = [["tear"; "tara"]; ["thin"]; ["sheet"]; ["yellow"]; ["pad"]].
Proof.
  destruct (ingest_five_keywords
              "L 1 S 0  tear/Tara thin sheet yellow pad" 1 0
              ["tear/Tara"; "thin"; "sheet"; "yellow"; "pad"] ∅ [])
    as (key_list & _ & Hrun & Hkl & _).
  - exact (table_line_spaced " 1" " 0" 1 0
             ["tear/Tara"; "thin"; "sheet"; "yellow"; "pad"]
             eq_refl eq_refl eq_refl).
  - reflexivity.
  - exists key_list. split; [exact Hrun|]. rewrite Hkl. reflexivity.
Defined.

(** C2, as the specification words it, fails: five keywords separated by
    TAB characters are white-space separated, and the table receives one
    entry for the whole run, not five. *)
Lemma ingest_tabbed_line :
  table_line PyStr.isspace tabbed_line 0 0 five_letters ∧
  length five_letters = 5%nat ∧
  ∃ key_list,
    ingest_spin_keyword_lists [tabbed_line] [] =
      (Ok {[(0, 0) := key_list]}, [KeywordCountWarning 0 0 key_list]) ∧
    length key_list = 1%nat.
Proof.
  split_and!.
  - exists " 0", " 0", ("  " +:+ PyStr.join (String "009" "") five_letters).
    split_and!; try done.
    do 2 (apply tokens_sep; [done|]). by apply tokens_of_join.
  - done.
  - eexists. split; [vm_compute; reflexivity|done].
Qed.

(** C6: a line that has a key (its two number fields are integers) and
    whose keyword-token count is not five makes the builder print one
    warning that carries the list index, the sentence index and the parsed
    entries, and the entry is stored all the same, with as many keyword
    entries as the line has tokens; nothing is raised.  The build of a
    table that contains such a line returns: the warning is in its output
    and the key is in the table.  A table line has the key and the tokens
    one reads in it, so a table line with four keywords is such a line. *)
Theorem ingest_wrong_count (line : string) (l s : Z) :
  line_key line = Some (l, s) →
  length (keyword_tokens line) ≠ 5%nat →
  let key_list := word_alternatives <$> keyword_tokens line in
  length key_list = length (keyword_tokens line) ∧
  (∀ d out,
     ingest_line d line out =
       (Ok (<[(l, s) := key_list]> d),
        out ++ [KeywordCountWarning l s key_list])) ∧
  (∀ pre post,
     Forall readable_line pre → Forall readable_line post →
     ∃ d out,
       ingest_spin_keyword_lists (pre ++ line :: post) [] = (Ok d, out) ∧
       KeywordCountWarning l s key_list ∈ out ∧
       is_Some (d !! (l, s))) ∧
  (∀ line' l' s' toks,
     table_line is_blank line' l' s' toks →
     line_key line' = Some (l', s') ∧
     keyword_tokens line' = PyStr.lower <$> toks).
Proof.
  intros Hkey Hlen key_list.
  assert (∀ d out, ingest_line d line out =
            (Ok (<[(l, s) := key_list]> d),
             out ++ [KeywordCountWarning l s key_list])) as Hstep.
  { intros d out. rewrite (ingest_line_keyed d line (l, s) out Hkey).
    unfold line_warning, line_entry. rewrite length_fmap.
    by destruct (Nat.eqb_spec (length (keyword_tokens line)) 5). }
  split_and!.
  - unfold key_list. by rewrite length_fmap.
  - exact Hstep.
  - intros pre post Hpre Hpost. unfold ingest_spin_keyword_lists.
    rewrite for_acc_app.
    destruct (ingest_readable pre ∅ [] Hpre) as (d1 & e1 & -> & _).
    simpl. unfold mbind, M_bind. rewrite Hstep.
    destruct (ingest_readable post (<[(l, s) := key_list]> d1)
                (e1 ++ [KeywordCountWarning l s key_list]) Hpost)
      as (d2 & e2 & -> & Hkeep).
    exists d2, ((e1 ++ [KeywordCountWarning l s key_list]) ++ e2).
    split_and!; [done| |].
    + rewrite !elem_of_app. left. right. by left.
    + apply Hkeep. by rewrite lookup_insert_eq.
  - intros line' l' s' toks. apply table_line_read.
Qed.

Lemma ingest_wrong_count_witness :
  ingest_line ∅ "L 3 S 1  picked up dice second" [] =
    (Ok {[(3, 1) := [["picked"]; ["up"]; ["dice"]; ["second"]]]},
     [KeywordCountWarning 3 1 [["picked"]; ["up"]; ["dice"]; ["second"]]]).
Proof.
  destruct (ingest_wrong_count "L 3 S 1  picked up dice second" 3 1)
    as (_ & Hstep & _).
  - reflexivity.
  - vm_compute. lia.
  - exact (Hstep ∅ []).
Defined.



(** ** Transcript flattening *)

Section TranscriptFacts.
Context `{TimeProto}.

Lemma parse_words_run (ws : list WordInfo.t) (fr : Frame.t) :
  for_ ws parse_word fr =
    (Ok tt,
     Frame.Build _ (Frame.words fr ++ (recognized <$> ws))
       (match last ws with
        | Some w => Some (parse_time (WordInfo.end_offset w))
        | None => Frame.end_time fr
        end)).
Proof.
  revert fr. induction ws as [|w ws IH]; intros [words0 t0].
  - simpl. by rewrite app_nil_r.
  - simpl. unfold mbind, M_bind. simpl. rewrite IH. simpl.
    rewrite <- app_assoc. simpl. rewrite last_cons.
    by destruct (last ws).
Qed.

Lemma parse_result_skip (seg : RecognitionResult.t) (fr : Frame.t) :
  has_alternatives seg = false → parse_result seg fr = (Ok tt, fr).
Proof. unfold parse_result. by intros ->. Qed.

Lemma no_alternatives_skipped (seg : RecognitionResult.t) :
  no_alternatives seg ↔ has_alternatives seg = false.
Proof.
  unfold no_alternatives, has_alternatives.
  destruct (RecognitionResult.alternatives seg) as [[|a l]|]; simpl.
  - split; [done|by right].
  - split; [by intros [?|?]|done].
  - split; [done|by left].
Qed.


Lemma parse_result_best (seg : RecognitionResult.t) best rest (fr : Frame.t) :
  RecognitionResult.alternatives seg = Some (best :: rest) →
  parse_result seg fr =
    let ws := Alternative.words best in
    let said := Frame.words fr ++ (recognized <$> ws) in
    match last ws with
    | Some w =>
        let t := parse_time (WordInfo.end_offset w) in
        (Ok tt, Frame.Build _ (said ++ [sentinel t]) (Some t))
    | None =>
        match Frame.end_time fr with
        | Some t => (Ok tt, Frame.Build _ (said ++ [sentinel t]) (Some t))
        | None => (Raise UnboundLocalError, Frame.Build _ said None)
        end
    end.
Proof.
  intros Halt. unfold parse_result, has_alternatives, first_alternative.
  rewrite Halt. simpl. unfold mbind, M_bind, mret, M_ret.
  rewrite parse_words_run. unfold read_end_time, mbind, M_bind, get. simpl.
  destruct (last (Alternative.words best)); [done|].
  by destruct (Frame.end_time fr).
Qed.

Lemma parse_transcript_run (segs : list RecognitionResult.t) :
  parse_transcript (RecognizeResponse.Build _ segs) =
    match for_ segs parse_result (Frame.Build _ [] None) with
    | (Ok _, fr) => Ok (Frame.words fr)
    | (Raise e, _) => Raise e
    end.
Proof.
  unfold parse_transcript, parse_transcript_body, mbind, M_bind. simpl.
  by destruct (for_ segs parse_result _) as [[[]|e] fr].
Qed.

End TranscriptFacts.


(** C5: a result segment with no list of alternatives, or with an empty
    one, leaves the locals of [parse_transcript] as they are and raises
    nothing; the response gives what it gives without that segment, so
    the segment adds no word and no sentinel. *)
Theorem parse_transcript_skips `{TimeProto}
    (before after : list RecognitionResult.t) (seg : RecognitionResult.t) :
  no_alternatives seg →
  (∀ fr, parse_result seg fr = (Ok tt, fr)) ∧
  parse_transcript (RecognizeResponse.Build _ (before ++ seg :: after)) =
    parse_transcript (RecognizeResponse.Build _ (before ++ after)).
Proof.
  intros Hskip%no_alternatives_skipped.
  assert (∀ fr, parse_result seg fr = (Ok tt, fr)) as Hstep
    by (intros fr; by apply parse_result_skip).
  split; [exact Hstep|].
  rewrite !parse_transcript_run, !for_app.
  destruct (for_ before parse_result _) as [[[]|e] fr]; [|done].
  simpl. unfold mbind, M_bind. by rewrite Hstep.
Qed.

Lemma parse_transcript_skips_witness :
  @parse_transcript micro_time
    (@RecognizeResponse.Build micro_time
       [segment "no" [sample_word "No" 0 400000]; silent_segment;
        segment "yes" [sample_word "Yes" 900000 1500000]]) =
    Ok [ @mkRecogResult micro_time "no" (0, 0) (0, 400000);
         @mkRecogResult micro_time "." (0, 400000) (0, 400000);
         @mkRecogResult micro_time "yes" (0, 900000) (1, 500000);
         @mkRecogResult micro_time "." (1, 500000) (1, 500000) ].
Proof.
  etrans.
  - exact (proj2 (@parse_transcript_skips micro_time
                    [segment "no" [sample_word "No" 0 400000]]
                    [segment "yes" [sample_word "Yes" 900000 1500000]]
                    silent_segment (or_intror eq_refl))).
  - reflexivity.
Defined.



(** ** Batch recognition *)

(** The base name of a path is what comes after its last ['/']. *)
Lemma after_last_spec p :
  match PyStr.after_last "/" p with
  | O => PyStr.count "/" p = O
  | S k =>
      PyStr.count "/" (PyStr.drop (S k) p) = O ∧
      ∃ dir, p = dir +:+ "/" +:+ PyStr.drop (S k) p
  end.
Proof.
  induction p as [|a r IH]; [done|]. cbn [PyStr.after_last].
  destruct (PyStr.after_last "/" r) as [|k].
  - destruct (Ascii.eqb a "/") eqn:Ea.
    + apply Ascii.eqb_eq in Ea as ->. split; [done|]. by exists "".
    + simpl. by rewrite Ea.
  - destruct IH as (Hc & dir & Hr). split; [done|].
    exists (String a dir).
    change (PyStr.drop (S (S k)) (String a r)) with (PyStr.drop (S k) r).
    by rewrite (str_app_cons a dir), <- Hr.
Qed.

Lemma basename_last_part p : last_part p (basename p).
Proof.
  unfold last_part, basename. pose proof (after_last_spec p) as Hp.
  destruct (PyStr.after_last "/" p) as [|k].
  - split; [by apply count_zero_iff|by left].
  - destruct Hp as [Hc Hdir]. split; [by apply count_zero_iff|by right].
Qed.

Lemma after_last_none s : PyStr.count "/" s = O → PyStr.after_last "/" s = O.
Proof.
  induction s as [|a r IH]; [done|]. simpl.
  destruct (Ascii.eqb a "/"); [done|]. intros Hr. by rewrite IH.
Qed.

Lemma basename_app dir name :
  PyStr.count "/" name = O → basename (dir +:+ "/" +:+ name) = name.
Proof.
  intros Hname. unfold basename.
  assert (PyStr.after_last "/" (dir +:+ "/" +:+ name) = S (String.length dir))
    as ->.
  { induction dir as [|a dir IH].
    - rewrite str_app_nil_l, str_app_cons. cbn [PyStr.after_last].
      rewrite str_app_nil_l. by rewrite after_last_none.
    - rewrite str_app_cons. cbn [PyStr.after_last]. by rewrite IH. }
  clear Hname. induction dir as [|a dir IH]; [done|].
  rewrite str_app_cons. exact IH.
Qed.

(** The last part of a path is its base name, and nothing else is. *)
Lemma last_part_basename path name :
  last_part path name ↔ name = basename path.
Proof.
  split; [|intros ->; apply basename_last_part].
  intros [Hfree%count_zero_iff [->|[dir ->]]].
  - unfold basename. by rewrite after_last_none.
  - by rewrite basename_app.
Qed.

Lemma elem_of_basenames (fs : list string) (k : string) :
  k ∈@{gset string} list_to_set (basename <$> fs) ↔
    ∃ f, f ∈ fs ∧ last_part f k.
Proof.
  rewrite elem_of_list_to_set, list_elem_of_fmap.
  split; intros (f & Hk & Hf); exists f.
  - split; [done|]. by apply last_part_basename.
  - split; [|done]. by apply last_part_basename.
Qed.

Section RecognizeFacts.
Context `{RecognitionEngine}.

Lemma print_calls (o : output) (w : World.t) :
  ∃ w', print o w = (Ok tt, w') ∧
        World.calls w' = World.calls w ∧
        World.asr_engine w' = World.asr_engine w.
Proof. by eexists. Qed.

Lemma print_results_calls (rs : list RecognitionResult.t) (w : World.t) :
  ∃ w', for_ rs print_result w = (Ok tt, w') ∧
        World.calls w' = World.calls w ∧
        World.asr_engine w' = World.asr_engine w.
Proof.
  revert w. induction rs as [|r rs IH]; intros w; [by eexists|].
  assert (∃ w1, print_result r w = (Ok tt, w1) ∧
                World.calls w1 = World.calls w ∧
                World.asr_engine w1 = World.asr_engine w)
    as (w1 & E1 & C1 & A1).
  { unfold print_result.
    destruct (RecognitionResult.alternatives r) as [[|a l]|];
      apply print_calls. }
  destruct (IH w1) as (w2 & E2 & C2 & A2). exists w2.
  simpl. unfold mbind, M_bind. rewrite E1, E2. split_and!; congruence.
Qed.

Lemma recognize_one_skipped debug all_results f (w : World.t) :
  PyStr.str_in "Calibration" f = true →
  recognize_one debug all_results f w = (Ok all_results, w).
Proof. unfold recognize_one. by intros ->. Qed.




End RecognizeFacts.



(** * Further properties *)

(** ** Transcript flattening, in general *)

Section TranscriptMore.
Context `{TimeProto}.

Lemma parse_result_by_best (seg : RecognitionResult.t) (fr : Frame.t) :
  parse_result seg fr =
    match best_words seg with
    | None => (Ok tt, fr)
    | Some ws =>
        match last ws, Frame.end_time fr with
        | Some w, _ =>
            (Ok tt, Frame.Build _ (Frame.words fr ++ said_in ws)
                      (Some (total_seconds (WordInfo.end_offset w))))
        | None, Some t =>
            (Ok tt, Frame.Build _ (Frame.words fr ++ [sentinel t]) (Some t))
        | None, None => (Raise UnboundLocalError, fr)
        end
    end.
Proof.
  unfold best_words.
  destruct (RecognitionResult.alternatives seg) as [[|a l]|] eqn:Ealt.
  - apply parse_result_skip. unfold has_alternatives. by rewrite Ealt.
  - rewrite (parse_result_best seg a l fr Ealt). cbv zeta. unfold said_in.
    destruct (last (Alternative.words a)) as [w|] eqn:El.
    + by rewrite app_assoc.
    + apply last_None in El. rewrite El. simpl. rewrite app_nil_r.
      by destruct fr as [said [t|]].
  - apply parse_result_skip. unfold has_alternatives. by rewrite Ealt.
Qed.

(** Once [end_time] is set the loop cannot raise. *)
Lemma parse_results_set (segs : list RecognitionResult.t) said t :
  ∃ said' t',
    for_ segs parse_result (Frame.Build _ said (Some t)) =
      (Ok tt, Frame.Build _ said' (Some t')).
Proof.
  revert said t. induction segs as [|seg segs IH]; intros said t.
  - by exists said, t.
  - simpl. unfold mbind, M_bind. rewrite parse_result_by_best. simpl.
    destruct (best_words seg) as [ws|]; [|apply IH].
    destruct (last ws); apply IH.
Qed.

(** The entries already made are only added to. *)
Lemma parse_results_shift (segs : list RecognitionResult.t) pre said t :
  for_ segs parse_result (Frame.Build _ (pre ++ said) t) =
    let '(r, fr) := for_ segs parse_result (Frame.Build _ said t) in
    (r, Frame.Build _ (pre ++ Frame.words fr) (Frame.end_time fr)).
Proof.
  revert said t. induction segs as [|seg segs IH]; intros said t; [done|].
  simpl. unfold mbind, M_bind. rewrite !parse_result_by_best. simpl.
  destruct (best_words seg) as [ws|]; [|apply IH].
  destruct (last ws) as [w|].
  - rewrite <- app_assoc. apply IH.
  - destruct t as [t|]; [|done]. rewrite <- app_assoc. apply IH.
Qed.

(** A run that returns from an unset [end_time] makes the same entries
    from a set one. *)
Lemma parse_results_from_set (segs : list RecognitionResult.t) fr t :
  for_ segs parse_result (Frame.Build _ [] None) = (Ok tt, fr) →
  ∃ t', for_ segs parse_result (Frame.Build _ [] (Some t)) =
          (Ok tt, Frame.Build _ (Frame.words fr) t').
Proof.
  induction segs as [|seg segs IH]; simpl.
  - unfold mret, M_ret. intros [= <-]. by eexists.
  - unfold mbind, M_bind. rewrite !parse_result_by_best. simpl.
    destruct (best_words seg) as [ws|]; [|apply IH].
    destruct (last ws) as [w|]; [|done].
    intros ->. destruct fr. by eexists.
Qed.

Lemma parse_result_same_best (a b : RecognitionResult.t) fr :
  best_words a = best_words b → parse_result a fr = parse_result b fr.
Proof. intros Hb. by rewrite !parse_result_by_best, Hb. Qed.

Lemma parse_results_lowercased (segs : list RecognitionResult.t) fr r fr' :
  Forall (λ e, lowercased (word e)) (Frame.words fr) →
  for_ segs parse_result fr = (r, fr') →
  Forall (λ e, lowercased (word e)) (Frame.words fr').
Proof.
  revert fr. induction segs as [|seg segs IH]; intros fr Hfr; simpl.
  - unfold mret, M_ret. by intros [= _ <-].
  - unfold mbind, M_bind. rewrite parse_result_by_best.
    assert (∀ ws, Forall (λ e, lowercased (word e)) (said_in ws)) as Hsaid.
    { intros ws. unfold said_in. apply Forall_app. split.
      - apply Forall_fmap, Forall_true. intros w. apply lower_idem.
      - destruct (last ws); by repeat constructor. }
    destruct (best_words seg) as [ws|]; [|by apply IH].
    destruct (last ws) as [w|] eqn:El.
    + apply IH. simpl. apply Forall_app. split; [done|apply Hsaid].
    + destruct (Frame.end_time fr) as [t|].
      * apply IH. simpl. apply Forall_app. split; [done|].
        by repeat constructor.
      * by intros [= _ <-].
Qed.

Lemma omap_cons {A B} (f : A → option B) x l :
  omap f (x :: l) =
    match f x with Some y => y :: omap f l | None => omap f l end.
Proof. done. Qed.

Lemma parse_results_length (segs : list RecognitionResult.t) fr fr' :
  for_ segs parse_result fr = (Ok tt, fr') →
  length (Frame.words fr') =
    (length (Frame.words fr) + sum_list (length <$> omap best_words segs)
     + length (omap best_words segs))%nat.
Proof.
  revert fr. induction segs as [|seg segs IH]; intros fr.
  - simpl. unfold mret, M_ret. intros [= <-]. lia.
  - cbn [for_]. unfold mbind, M_bind. rewrite parse_result_by_best.
    rewrite omap_cons.
    destruct (best_words seg) as [ws|]; [|apply IH].
    rewrite fmap_cons, length_cons. cbn [sum_list sum_list_with].
    change (id (length ws)) with (length ws).
    destruct (last ws) as [w|] eqn:El.
    + intros ->%IH. cbn [Frame.words]. unfold said_in. rewrite El.
      rewrite !length_app, length_fmap. cbn [length]. lia.
    + apply last_None in El as ->.
      destruct (Frame.end_time fr) as [t|]; [|done].
      intros ->%IH. cbn [Frame.words]. rewrite length_app. cbn [length]. lia.
Qed.

Lemma parse_results_flat (segs : list RecognitionResult.t) said t :
  Forall (λ ws, ws ≠ []) (omap best_words segs) →
  ∃ t', for_ segs parse_result (Frame.Build _ said t) =
          (Ok tt, Frame.Build _
                    (said ++ concat (said_in <$> omap best_words segs)) t').
Proof.
  revert said t. induction segs as [|seg segs IH]; intros said t; simpl.
  - intros _. exists t. by rewrite app_nil_r.
  - unfold mbind, M_bind. rewrite parse_result_by_best.
    destruct (best_words seg) as [ws|]; simpl; [|apply IH].
    intros [Hws Hrest]%Forall_cons.
    destruct (last ws) as [w|] eqn:El; [|by apply last_None in El].
    destruct (IH (said ++ said_in ws)
                 (Some (total_seconds (WordInfo.end_offset w))) Hrest)
      as [t' ->].
    exists t'. by rewrite <- app_assoc.
Qed.

End TranscriptMore.

(** X1: [parse_transcript] raises exactly when the first result segment
    that has alternatives has no word in its best alternative, and then it
    raises [UnboundLocalError]; on every other response, the empty one and
    those without any alternatives included, it returns. *)
Theorem parse_transcript_returns `{TimeProto}
    (segs : list RecognitionResult.t) :
  match head (omap best_words segs) with
  | Some [] =>
      parse_transcript (RecognizeResponse.Build _ segs) =
        Raise UnboundLocalError
  | _ => ∃ out, parse_transcript (RecognizeResponse.Build _ segs) = Ok out
  end.
Proof.
  rewrite parse_transcript_run.
  assert (∀ said,
    match head (omap best_words segs) with
    | Some [] =>
        for_ segs parse_result (Frame.Build _ said None) =
          (Raise UnboundLocalError, Frame.Build _ said None)
    | _ => ∃ fr, for_ segs parse_result (Frame.Build _ said None) = (Ok tt, fr)
    end) as Hrun.
  { induction segs as [|seg segs IH]; intros said; [by eexists|].
    rewrite omap_cons. cbn [for_]. unfold mbind, M_bind.
    rewrite parse_result_by_best.
    destruct (best_words seg) as [[|w ws]|]; cbn [head].
    - done.
    - destruct (last (w :: ws)) as [w'|] eqn:El; [|by apply last_None in El].
      cbn [Frame.words Frame.end_time].
      destruct (parse_results_set segs (said ++ said_in (w :: ws))
                  (total_seconds (WordInfo.end_offset w')))
        as (said' & t' & ->).
      by eexists.
    - apply IH. }
  specialize (Hrun []).
  destruct (head (omap best_words segs)) as [[|w ws]|].
  - by rewrite Hrun.
  - destruct Hrun as [fr ->]. by eexists.
  - destruct Hrun as [fr ->]. by eexists.
Qed.

(** X2: when every result segment that has alternatives has at least one
    word in its best alternative, [parse_transcript] returns the segments'
    entries one after the other in response order: for each such segment
    its words, then a sentinel at the end time of its last word. *)
Theorem parse_transcript_flat `{TimeProto} (segs : list RecognitionResult.t) :
  Forall (λ ws, ws ≠ []) (omap best_words segs) →
  parse_transcript (RecognizeResponse.Build _ segs) =
    Ok (concat (said_in <$> omap best_words segs)).
Proof.
  intros Hall. rewrite parse_transcript_run.
  by destruct (parse_results_flat segs [] None Hall) as [t' ->].
Qed.

Lemma parse_transcript_flat_witness :
  @parse_transcript micro_time
    (@RecognizeResponse.Build micro_time sample_segments) =
    Ok [ @mkRecogResult micro_time "no" (0, 0) (0, 400000);
         @mkRecogResult micro_time "way" (0, 400000) (0, 700000);
         @mkRecogResult micro_time "." (0, 700000) (0, 700000);
         @mkRecogResult micro_time "yes" (0, 900000) (1, 500000);
         @mkRecogResult micro_time "." (1, 500000) (1, 500000) ].
Proof.
  refine (@parse_transcript_flat micro_time sample_segments _).
  apply Forall_cons. split; [done|]. by apply Forall_singleton.
Defined.

(** X3: flattening goes through concatenation: when two responses both
    flatten, the response made of the segments of the first followed by
    those of the second flattens to the entries of the first followed by
    those of the second. *)
Theorem parse_transcript_app `{TimeProto}
    (segs1 segs2 : list RecognitionResult.t) (out1 out2 : list RecogResult) :
  parse_transcript (RecognizeResponse.Build _ segs1) = Ok out1 →
  parse_transcript (RecognizeResponse.Build _ segs2) = Ok out2 →
  parse_transcript (RecognizeResponse.Build _ (segs1 ++ segs2)) =
    Ok (out1 ++ out2).
Proof.
  rewrite !parse_transcript_run, for_app.
  destruct (for_ segs1 parse_result _) as [[[]|e] [said1 t1]]; [|done].
  intros [= <-].
  destruct (for_ segs2 parse_result (Frame.Build _ [] None))
    as [[[]|e] fr2] eqn:E2; [|done].
  intros [= <-]. simpl.
  rewrite <- (app_nil_r said1) at 1. rewrite parse_results_shift.
  destruct t1 as [t1|].
  - destruct (parse_results_from_set segs2 fr2 t1 E2) as [t' ->]. done.
  - by rewrite E2.
Qed.

Lemma parse_transcript_app_witness :
  @parse_transcript micro_time
    (@RecognizeResponse.Build micro_time (sample_segments ++ sample_segments)) =
    Ok (concat (said_in <$> omap best_words sample_segments) ++
        concat (said_in <$> omap best_words sample_segments)).
Proof.
  apply (@parse_transcript_app micro_time); reflexivity.
Defined.

(** X4: only the words of the best alternative of each segment are read:
    two responses whose segments agree on them, whatever their other
    alternatives and their transcript texts, flatten alike, errors
    included. *)
Theorem parse_transcript_best_only `{TimeProto}
    (segs segs' : list RecognitionResult.t) :
  Forall2 (λ a b, best_words a = best_words b) segs segs' →
  parse_transcript (RecognizeResponse.Build _ segs) =
    parse_transcript (RecognizeResponse.Build _ segs').
Proof.
  intros Hsame. rewrite !parse_transcript_run.
  assert (∀ fr, for_ segs parse_result fr = for_ segs' parse_result fr) as ->.
  { induction Hsame as [|a b segs segs' Hab _ IH]; intros fr; [done|].
    simpl. unfold mbind, M_bind. rewrite (parse_result_same_best a b fr Hab).
    destruct (parse_result b fr) as [[[]|e] fr1]; [apply IH|done]. }
  done.
Qed.

Lemma parse_transcript_best_only_witness :
  @parse_transcript micro_time
    (@RecognizeResponse.Build micro_time
       [@RecognitionResult.Build micro_time
          (Some [@Alternative.Build micro_time "yes" [sample_word "Yes" 0 5];
                 @Alternative.Build micro_time "guess" [sample_word "Guess" 0 7]])]) =
  @parse_transcript micro_time
    (@RecognizeResponse.Build micro_time [segment "" [sample_word "Yes" 0 5]]).
Proof.
  apply (@parse_transcript_best_only micro_time).
  by apply Forall2_cons_2; [|apply Forall2_nil_2].
Defined.

(** X5: every entry [parse_transcript] returns has a lowercased text, the
    sentinels included, so the entries can be compared as they are with
    the lowercased spellings of the keyword table. *)
Theorem parse_transcript_lowercased `{TimeProto}
    (segs : list RecognitionResult.t) (out : list RecogResult) :
  parse_transcript (RecognizeResponse.Build _ segs) = Ok out →
  Forall (λ e, lowercased (word e)) out.
Proof.
  rewrite parse_transcript_run.
  destruct (for_ segs parse_result _) as [[[]|e] fr] eqn:Erun; [|done].
  intros [= <-].
  by apply (parse_results_lowercased segs (Frame.Build _ [] None) _ _
              (Forall_nil_2 _) Erun).
Qed.

Lemma parse_transcript_lowercased_witness :
  Forall (λ e, lowercased (@word micro_time e))
    [ @mkRecogResult micro_time "yes" (0, 0) (0, 5);
      @mkRecogResult micro_time "." (0, 5) (0, 5) ].
Proof.
  apply (@parse_transcript_lowercased micro_time
           [segment "Yes" [sample_word "YES" 0 5]]).
  reflexivity.
Defined.

(** X6: when [parse_transcript] returns, it returns one entry for each word
    of the best alternatives and one more for each segment that has
    alternatives. *)
Theorem parse_transcript_length `{TimeProto}
    (segs : list RecognitionResult.t) (out : list RecogResult) :
  parse_transcript (RecognizeResponse.Build _ segs) = Ok out →
  length out =
    (sum_list (length <$> omap best_words segs) +
     length (omap best_words segs))%nat.
Proof.
  rewrite parse_transcript_run.
  destruct (for_ segs parse_result _) as [[[]|e] fr] eqn:Erun; [|done].
  intros [= <-]. by rewrite (parse_results_length _ _ _ Erun).
Qed.

Lemma parse_transcript_length_witness :
  ∃ out,
    @parse_transcript micro_time
      (@RecognizeResponse.Build micro_time sample_segments) = Ok out ∧
    length out = 5%nat.
Proof.
  eexists. split; [reflexivity|].
  exact (@parse_transcript_length micro_time sample_segments _ eq_refl).
Defined.

(** ** The table build, in general *)

Lemma ingest_line_unkeyed d line out :
  ¬ blank_line line → line_key line = None →
  ingest_line d line out = (Raise ValueError, out).
Proof.
  unfold blank_line, line_key, list_field, sentence_field, trimmed, ingest_line.
  intros Hnb. destruct (PyStr.strip line) as [|c u]; [done|].
  cbn [PyStr.lower nonempty negb].
  unfold int_or_raise, mbind, M_bind, mret, M_ret, raise.
  destruct (PyStr.int (PyStr.slice 1 3 _)) as [l|]; [|done].
  by destruct (PyStr.int (PyStr.slice 5 7 _)) as [s|].
Qed.

Lemma blank_line_key line : blank_line line → line_key line = None.
Proof.
  unfold blank_line, line_key, list_field, trimmed. by intros ->.
Qed.

(** What one line does, whatever the line. *)
Lemma ingest_line_cases d line out :
  ingest_line d line out =
    match line_key line with
    | Some k => (Ok (<[k := line_entry line]> d), out ++ line_output line)
    | None => if decide (blank_line line) then (Ok d, out ++ line_output line)
              else (Raise ValueError, out)
    end.
Proof.
  unfold line_output. destruct (line_key line) as [k|] eqn:Ek.
  - by apply ingest_line_keyed.
  - rewrite app_nil_r. case_decide.
    + by apply ingest_line_blank.
    + by apply ingest_line_unkeyed.
Qed.

Lemma ingest_lookup lines k d0 out0 d out :
  for_acc lines ingest_line d0 out0 = (Ok d, out) →
  d !! k =
    match last (filter (λ line, line_key line = Some k) lines) with
    | Some line => Some (line_entry line)
    | None => d0 !! k
    end.
Proof.
  revert d0 out0. induction lines as [|line lines IH]; intros d0 out0.
  - simpl. unfold mret, M_ret. by intros [= <- _].
  - cbn [for_acc]. unfold mbind, M_bind. rewrite ingest_line_cases.
    rewrite filter_cons.
    destruct (line_key line) as [k'|] eqn:Ek.
    + intros ->%IH. destruct (decide (Some k' = Some k)) as [Hk|Hk].
      * injection Hk as ->. rewrite last_cons.
        destruct (last (filter _ lines)); [done|]. apply lookup_insert_eq.
      * destruct (last (filter _ lines)); [done|].
        apply lookup_insert_ne. congruence.
    + destruct (decide (None = Some k)) as [|_]; [done|].
      destruct (decide (blank_line line)); [apply IH|done].
Qed.

Lemma ingest_output lines d0 out0 d out :
  for_acc lines ingest_line d0 out0 = (Ok d, out) →
  out = out0 ++ (lines ≫= line_output).
Proof.
  revert d0 out0. induction lines as [|line lines IH]; intros d0 out0.
  - simpl. unfold mret, M_ret. intros [= _ <-]. by rewrite app_nil_r.
  - cbn [for_acc]. unfold mbind, M_bind. rewrite ingest_line_cases.
    rewrite bind_cons, app_assoc.
    destruct (line_key line) as [k'|]; [apply IH|].
    case_decide; [apply IH|done].
Qed.

(** X7: a line that is not blank and whose list or sentence field is not
    an integer stops the build with [ValueError]: no table is returned,
    the lines after it are not looked at, and the output is what the lines
    before it gave. *)
Theorem ingest_aborts (pre post : list string) (line : string)
    (d : AnswerKeyTable) (out : list output) :
  ingest_spin_keyword_lists pre [] = (Ok d, out) →
  ¬ blank_line line →
  line_key line = None →
  ingest_spin_keyword_lists (pre ++ line :: post) [] = (Raise ValueError, out).
Proof.
  unfold ingest_spin_keyword_lists. intros Hpre Hnb Hkey.
  rewrite for_acc_app, Hpre. cbn [for_acc]. unfold mbind, M_bind.
  by rewrite ingest_line_unkeyed.
Qed.

Lemma ingest_aborts_witness :
  ingest_spin_keyword_lists
    ["L 0 S 0  a b c d"; "List 1"; "L 1 S 0  tear/Tara thin sheet yellow pad"]
    [] = (Raise ValueError, [KeywordCountWarning 0 0 [["a"]; ["b"]; ["c"]; ["d"]]]).
Proof.
  refine (ingest_aborts ["L 0 S 0  a b c d"]
            ["L 1 S 0  tear/Tara thin sheet yellow pad"] "List 1"
            {[(0, 0) := [["a"]; ["b"]; ["c"]; ["d"]]]} _ _ _ _).
  - vm_compute. reflexivity.
  - unfold blank_line. vm_compute. discriminate.
  - reflexivity.
Defined.

(** X8: the table a build returns is read off the lines: under a key it
    holds the entry of the last line that parses to that key, and it holds
    nothing under a key that no line parses to. *)
Theorem ingest_table_lookup (lines : list string) (d : AnswerKeyTable)
    (out : list output) (k : Z * Z) :
  ingest_spin_keyword_lists lines [] = (Ok d, out) →
  d !! k = line_entry <$> last (filter (λ line, line_key line = Some k) lines).
Proof.
  intros Hrun. rewrite (ingest_lookup lines k ∅ [] d out Hrun).
  by destruct (last _).
Qed.

Lemma ingest_table_lookup_witness :
  ∃ d out,
    ingest_spin_keyword_lists
      ["L 0 S 0  a b c d e"; ""; "L 0 S 0  v w x y z"] [] = (Ok d, out) ∧
    d !! (0, 0) = Some [["v"]; ["w"]; ["x"]; ["y"]; ["z"]] ∧
    d !! (0, 1) = None.
Proof.
  destruct (ingest_spin_keyword_lists
              ["L 0 S 0  a b c d e"; ""; "L 0 S 0  v w x y z"] [])
    as [[d|e] out] eqn:Erun; [|by vm_compute in Erun].
  exists d, out. split; [done|].
  rewrite !(ingest_table_lookup _ d out _ Erun). by vm_compute.
Defined.

(** X9: the output of a build that returns is the warnings of its lines in
    line order: one for each line that has a key and a keyword count other
    than five, and nothing else. *)
Theorem ingest_warnings (lines : list string) (d : AnswerKeyTable)
    (out : list output) :
  ingest_spin_keyword_lists lines [] = (Ok d, out) →
  out = lines ≫= line_output.
Proof. intros Hrun. by rewrite (ingest_output lines ∅ [] d out Hrun). Qed.

Lemma ingest_warnings_witness :
  ∃ d,
    ingest_spin_keyword_lists
      ["L 0 S 0  a b c d"; "L 0 S 1  a b c d e"; "L 0 S 2  a"] [] =
      (Ok d, [KeywordCountWarning 0 0 [["a"]; ["b"]; ["c"]; ["d"]];
              KeywordCountWarning 0 2 [["a"]]]).
Proof.
  destruct (ingest_spin_keyword_lists
              ["L 0 S 0  a b c d"; "L 0 S 1  a b c d e"; "L 0 S 2  a"] [])
    as [[d|e] out] eqn:Erun; [|by vm_compute in Erun].
  exists d. rewrite (ingest_warnings _ d out Erun). reflexivity.
Defined.

(** ** Letter case and margins *)

Lemma lower_char_isspace_b :
  ∀ c, Bool.eqb (PyStr.isspace (PyStr.lower_char c)) (PyStr.isspace c) = true.
Proof. by_all_chars. Qed.

Lemma lower_char_isspace c :
  PyStr.isspace (PyStr.lower_char c) = PyStr.isspace c.
Proof. apply Bool.eqb_prop, lower_char_isspace_b. Qed.

Lemma lstrip_lower s :
  PyStr.lstrip_with PyStr.isspace (PyStr.lower s) =
    PyStr.lower (PyStr.lstrip_with PyStr.isspace s).
Proof.
  induction s as [|c s IH]; [done|]. simpl. rewrite lower_char_isspace.
  by destruct (PyStr.isspace c).
Qed.

Lemma rstrip_lower s :
  PyStr.rstrip_with PyStr.isspace (PyStr.lower s) =
    PyStr.lower (PyStr.rstrip_with PyStr.isspace s).
Proof.
  induction s as [|c s IH]; [done|]. simpl. rewrite IH, lower_char_isspace.
  destruct (PyStr.rstrip_with PyStr.isspace s); simpl; [|done].
  by destruct (PyStr.isspace c).
Qed.

Lemma strip_lower s : PyStr.strip (PyStr.lower s) = PyStr.lower (PyStr.strip s).
Proof. unfold PyStr.strip. by rewrite lstrip_lower, rstrip_lower. Qed.

Lemma rstrip_idem p s :
  PyStr.rstrip_with p (PyStr.rstrip_with p s) = PyStr.rstrip_with p s.
Proof.
  induction s as [|c s IH]; [done|]. simpl.
  destruct (PyStr.rstrip_with p s) as [|a r] eqn:E.
  - destruct (p c) eqn:Ec; [done|]. simpl. by rewrite Ec.
  - change (PyStr.rstrip_with p (String c (String a r)))
      with (match PyStr.rstrip_with p (String a r) with
            | EmptyString => if p c then EmptyString else String c EmptyString
            | r' => String c r'
            end).
    by rewrite IH.
Qed.

(** A string that does not start with a character of [p]. *)
Lemma lstrip_fixed p s :
  PyStr.lstrip_with p (PyStr.lstrip_with p s) = PyStr.lstrip_with p s.
Proof.
  induction s as [|c s IH]; [done|]. simpl.
  destruct (p c) eqn:Ec; [done|]. simpl. by rewrite Ec.
Qed.

Lemma lstrip_rstrip p s :
  PyStr.lstrip_with p s = s →
  PyStr.lstrip_with p (PyStr.rstrip_with p s) = PyStr.rstrip_with p s.
Proof.
  destruct s as [|c s]; [done|]. simpl.
  destruct (p c) eqn:Ec.
  - intros Hs. assert (String.length (PyStr.lstrip_with p s) ≤ String.length s)%nat.
    { clear. induction s as [|a s IH]; simpl; [lia|].
      destruct (p a); simpl; lia. }
    rewrite Hs in H. simpl in H. lia.
  - intros _. destruct (PyStr.rstrip_with p s); simpl; by rewrite Ec.
Qed.

Lemma strip_idem s : PyStr.strip (PyStr.strip s) = PyStr.strip s.
Proof.
  unfold PyStr.strip.
  rewrite (lstrip_rstrip _ _ (lstrip_fixed PyStr.isspace s)).
  apply rstrip_idem.
Qed.

Lemma ingest_line_trimmed d a b out :
  trimmed a = trimmed b → ingest_line d a out = ingest_line d b out.
Proof. unfold trimmed, ingest_line. by intros ->. Qed.

Lemma ingest_same_trimmed lines lines' out :
  Forall2 (λ a b, trimmed a = trimmed b) lines lines' →
  ingest_spin_keyword_lists lines out = ingest_spin_keyword_lists lines' out.
Proof.
  unfold ingest_spin_keyword_lists. generalize (∅ : AnswerKeyTable).
  intros d Hsame. revert d out.
  induction Hsame as [|a b lines lines' Hab _ IH]; intros d out; [done|].
  simpl. unfold mbind, M_bind. rewrite (ingest_line_trimmed d a b out Hab).
  destruct (ingest_line d b out) as [[d1|e] out1]; [apply IH|done].
Qed.

(** X10: the table does not depend on the letter case of the text: two
    texts whose lines are the same once lowercased build alike, table,
    output and errors. *)
Theorem ingest_case_insensitive (lines lines' : list string)
    (out : list output) :
  Forall2 (λ a b, PyStr.lower a = PyStr.lower b) lines lines' →
  ingest_spin_keyword_lists lines out = ingest_spin_keyword_lists lines' out.
Proof.
  intros Hsame. apply ingest_same_trimmed.
  eapply Forall2_impl; [exact Hsame|]. intros a b Hab. unfold trimmed.
  by rewrite <- !strip_lower, Hab.
Qed.

Lemma ingest_case_insensitive_witness :
  ingest_spin_keyword_lists ["L 1 S 0  tear/Tara thin sheet yellow pad"] [] =
  ingest_spin_keyword_lists ["l 1 s 0  TEAR/TARA Thin sheet yellow PAD"] [].
Proof.
  apply ingest_case_insensitive. by apply Forall2_cons_2; [|apply Forall2_nil_2].
Defined.

(** X11: the white space around a line does not count: trimming every
    line of a text beforehand changes nothing to its build. *)
Theorem ingest_margins (lines : list string) (out : list output) :
  ingest_spin_keyword_lists (PyStr.strip <$> lines) out =
    ingest_spin_keyword_lists lines out.
Proof.
  apply ingest_same_trimmed. apply Forall2_fmap_l, Forall_Forall2_diag.
  apply Forall_true. intros line. unfold trimmed.
  unfold compose. by rewrite strip_idem.
Qed.

(** ** What the table stores *)

Lemma all_of_split q sep s :
  all_of q s = true → Forall (λ p, all_of q p = true) (PyStr.split sep s).
Proof.
  induction s as [|c s IH]; [by repeat constructor|].
  simpl. intros [Hc Hs]%andb_prop. rewrite split_cons.
  specialize (IH Hs). pose proof (split_nonnil sep s).
  destruct (PyStr.split sep s) as [|h t]; [done|].
  apply Forall_cons in IH as [Hh Ht].
  destruct (Ascii.eqb c sep); repeat constructor; simpl; try done.
  by rewrite Hc, Hh.
Qed.

Lemma all_of_drop q n s : all_of q s = true → all_of q (PyStr.drop n s) = true.
Proof.
  revert s. induction n as [|n IH]; intros [|c s]; simpl; try done.
  intros [_ Hs]%andb_prop. by apply IH.
Qed.

Lemma all_of_lower s :
  all_of (λ c, Ascii.eqb (PyStr.lower_char c) c) (PyStr.lower s) = true.
Proof.
  induction s as [|c s IH]; [done|]. simpl.
  by rewrite lower_char_idem, Ascii.eqb_refl, IH.
Qed.

Lemma all_of_lowercased s :
  all_of (λ c, Ascii.eqb (PyStr.lower_char c) c) s = true → lowercased s.
Proof.
  unfold lowercased. induction s as [|c s IH]; [done|]. simpl.
  intros [Hc%Ascii.eqb_eq Hs]%andb_prop. by rewrite Hc, IH.
Qed.

Lemma count_all_of sep s :
  PyStr.count sep s = O ↔ all_of (λ c, negb (Ascii.eqb c sep)) s = true.
Proof.
  induction s as [|c s IH]; [done|]. simpl.
  destruct (Ascii.eqb c sep); simpl; [split; done|apply IH].
Qed.

Lemma all_of_and q1 q2 s :
  all_of q1 s = true → all_of q2 s = true →
  all_of (λ c, q1 c && q2 c) s = true.
Proof.
  induction s as [|c s IH]; [done|]. simpl.
  intros [-> H1]%andb_prop [-> H2]%andb_prop. by rewrite IH.
Qed.

Lemma all_of_impl (q1 q2 : ascii → bool) s :
  (∀ c, q1 c = true → q2 c = true) →
  all_of q1 s = true → all_of q2 s = true.
Proof.
  intros Hq. induction s as [|c s IH]; [done|]. simpl.
  intros [Hc Hs]%andb_prop. by rewrite (Hq c Hc), IH.
Qed.

Lemma line_entry_stored line :
  Forall (λ alts, alts ≠ [] ∧ Forall stored_spelling alts) (line_entry line).
Proof.
  unfold line_entry, keyword_tokens. apply Forall_fmap.
  set (rest := PyStr.drop 7 (trimmed line)).
  assert (all_of (λ c, Ascii.eqb (PyStr.lower_char c) c) rest = true) as Hlow
    by apply all_of_drop, all_of_lower.
  pose proof (all_of_split _ " " _ Hlow) as Hlows.
  pose proof (split_pieces_free " " rest) as Hfree.
  apply Forall_forall. intros t [Ht%list_elem_of_In _]%list_elem_of_In%filter_In.
  rewrite Forall_forall in Hlows, Hfree.
  specialize (Hlows t Ht). specialize (Hfree t Ht). simpl in Hlows, Hfree.
  simpl. rewrite word_alternatives_split. split; [apply split_nonnil|].
  apply count_all_of in Hfree.
  pose proof (all_of_split _ "/" _ Hlows) as H1.
  pose proof (all_of_split _ "/" _ Hfree) as H2.
  pose proof (split_pieces_free "/" t) as H3.
  rewrite Forall_forall in H1, H2, H3. apply Forall_forall. intros w Hw.
  split_and!.
  - by apply all_of_lowercased, H1.
  - by apply count_zero_iff, H3.
  - by apply count_zero_iff, count_all_of, H2.
Qed.

(** X12: whatever the text, every keyword entry of a table that was built
    has at least one spelling, and every spelling in it is lowercased and
    contains neither ['/'] nor a space. *)
Theorem ingest_entries_stored (lines : list string) (d : AnswerKeyTable)
    (out : list output) (k : Z * Z) (entry : SentenceKey) :
  ingest_spin_keyword_lists lines [] = (Ok d, out) →
  d !! k = Some entry →
  Forall (λ alts, alts ≠ [] ∧ Forall stored_spelling alts) entry.
Proof.
  intros Hrun. rewrite (ingest_lookup lines k ∅ [] d out Hrun).
  destruct (last _) as [line|]; [|done]. intros [= <-].
  apply line_entry_stored.
Qed.

Lemma ingest_entries_stored_witness :
  Forall (λ alts, alts ≠ [] ∧ Forall stored_spelling alts)
    [["tear"; "tara"]; ["thin"]; ["sheet"]; ["yellow"]; ["pad"]].
Proof.
  destruct (ingest_spin_keyword_lists
              ["L 1 S 0  tear/Tara thin sheet yellow pad"] [])
    as [[d|e] out] eqn:Erun; [|by vm_compute in Erun].
  apply (ingest_entries_stored _ d out (1, 0) _ Erun).
  rewrite (ingest_lookup _ (1, 0) ∅ [] d out Erun). by vm_compute.
Defined.

(** X13: lowercasing a token and splitting it into its spellings can be
    done in either order: the spellings of the lowercased token are the
    lowercased spellings of the token. *)
Theorem word_alternatives_lower (token : string) :
  word_alternatives (PyStr.lower token) =
    PyStr.lower <$> word_alternatives token.
Proof. rewrite !word_alternatives_split. apply split_slash_lower. Qed.

(** ** Batch recognition, whatever the recognizer does *)

Section RecognizeMore.
Context `{RecognitionEngine}.

Lemma recognize_one_cases debug all_results f (w : World.t) :
  PyStr.str_in "Calibration" f = false →
  ∃ w',
    World.calls w' = World.calls w ++ [mkCall f true debug] ∧
    World.asr_engine w' = (RecognizeFile f true debug (World.asr_engine w)).2 ∧
    (debug = false → World.stdout w' = World.stdout w) ∧
    recognize_one debug all_results f w =
      (match (RecognizeFile f true debug (World.asr_engine w)).1 with
       | Ok resp => Ok (<[basename f := resp]> all_results)
       | Raise e => Raise e
       end, w').
Proof.
  intros Hf. unfold recognize_one. rewrite Hf.
  unfold mbind, M_bind, call_RecognizeFile.
  destruct debug.
  - destruct (print_calls (Recognizing (basename f)) w) as (w1 & -> & C1 & A1).
    rewrite A1.
    destruct (RecognizeFile f true true (World.asr_engine w)) as [[resp|e] e'].
    + set (w2 := World.Build _ _ e' _ _).
      destruct (print_calls (FileHeader (basename f)) w2) as (w3 & -> & C3 & A3).
      destruct (print_results_calls (RecognizeResponse.results resp) w3)
        as (w4 & -> & C4 & A4).
      exists w4. split_and!; [|by rewrite A4, A3|done|done].
      by rewrite C4, C3, <- C1.
    + exists (World.Build _ _ e' (World.calls w1 ++ [mkCall f true true])
                (World.stdout w1)).
      split_and!; [|done..]. simpl. by rewrite C1.
  - unfold mret at 1, M_ret at 1.
    destruct (RecognizeFile f true false (World.asr_engine w)) as [[resp|e] e'];
      by exists (World.Build _ _ e' (World.calls w ++ [mkCall f true false])
                   (World.stdout w)).
Qed.

Lemma answered_nil debug e : answered debug e [].
Proof. intros pre f post Heq. by destruct pre. Qed.

Lemma answered_cons debug e f fs resp :
  (RecognizeFile f true debug e).1 = Ok resp →
  answered debug (RecognizeFile f true debug e).2 fs →
  answered debug e (f :: fs).
Proof.
  intros Hf Hfs [|p pre] g post.
  - intros [= <- _]. by exists resp.
  - intros [= <- Heq]. exact (Hfs pre g post Heq).
Qed.

Lemma recognize_loop_any debug all_wavs all_results (w : World.t) :
  ∃ sent,
    sent `prefix_of` kept_files all_wavs ∧
    World.calls (for_acc all_wavs (recognize_one debug) all_results w).2 =
      World.calls w ++ ((λ f, mkCall f true debug) <$> sent) ∧
    (debug = false →
     World.stdout (for_acc all_wavs (recognize_one debug) all_results w).2 =
       World.stdout w) ∧
    match (for_acc all_wavs (recognize_one debug) all_results w).1 with
    | Ok found =>
        sent = kept_files all_wavs ∧
        dom found =
          dom all_results ∪ list_to_set (basename <$> kept_files all_wavs) ∧
        answered debug (World.asr_engine w) sent
    | Raise e =>
        ∃ sent' f,
          sent = sent' ++ [f] ∧
          answered debug (World.asr_engine w) sent' ∧
          RecognizeFile f true debug
            (engine_after debug sent' (World.asr_engine w)) =
            (Raise e,
             World.asr_engine
               (for_acc all_wavs (recognize_one debug) all_results w).2)
    end.
Proof.
  revert all_results w.
  induction all_wavs as [|f fs IH]; intros all_results w.
  - exists []. simpl. rewrite app_nil_r. split_and!; [done..| |].
    + set_solver.
    + apply answered_nil.
  - cbn [for_acc]. unfold mbind, M_bind, kept_files. cbn [List.filter].
    fold (kept_files fs).
    destruct (PyStr.str_in "Calibration" f) eqn:Ef; cbn [negb].
    + rewrite recognize_one_skipped by done. apply IH.
    + destruct (recognize_one_cases debug all_results f w Ef)
        as (w1 & C1 & A1 & S1 & ->).
      destruct (RecognizeFile f true debug (World.asr_engine w)).1
        as [resp|e] eqn:Ecall.
      * destruct (IH (<[basename f := resp]> all_results) w1)
          as (sent & Hpre & Hcalls & Hout & Hres).
        rewrite A1 in Hres.
        exists (f :: sent). split_and!.
        -- by apply prefix_cons.
        -- rewrite Hcalls, C1, <- app_assoc. done.
        -- intros Hd. rewrite (Hout Hd). by apply S1.
        -- destruct (for_acc fs _ _ w1).1 as [found|e].
           ++ destruct Hres as (-> & Hdom & Hans). split_and!; [done| |].
              ** rewrite Hdom, dom_insert_L. set_solver.
              ** by apply (answered_cons _ _ _ _ resp).
           ++ destruct Hres as (sent' & f' & -> & Hans & Hraise).
              exists (f :: sent'), f'. split_and!; [done| |exact Hraise].
              by apply (answered_cons _ _ _ _ resp).
      * exists [f]. split_and!.
        -- apply prefix_cons, prefix_nil.
        -- done.
        -- done.
        -- exists [], f. split_and!; [done|apply answered_nil|].
           cbn [snd engine_after foldl]. rewrite A1, <- Ecall.
           apply surjective_pairing.
Qed.

End RecognizeMore.

(** X14: whatever the recognizer does, [recognize_all_spin] asks it only
    about paths without ["Calibration"], in input order, once each and
    with word timings on, and the first request that raises ends the run:
    every request but the last was answered, and the function raises
    exactly when the last one raised, with that exception and without
    asking about the paths after it.  When it returns, every such path
    was asked about and answered, and a string is a key of the result
    exactly when it is what comes after the last ['/'] of one of them. *)
Theorem recognize_all_spin_calls `{RecognitionEngine}
    (all_wavs : list string) (debug : bool) (w : World.t) :
  ∃ sent,
    sent `prefix_of` kept_files all_wavs ∧
    World.calls (recognize_all_spin all_wavs debug w).2 =
      World.calls w ++ ((λ f, mkCall f true debug) <$> sent) ∧
    match (recognize_all_spin all_wavs debug w).1 with
    | Ok found =>
        sent = kept_files all_wavs ∧
        answered debug (World.asr_engine w) sent ∧
        dom found = list_to_set (basename <$> kept_files all_wavs) ∧
        (∀ k, k ∈ dom found ↔ ∃ f, f ∈ kept_files all_wavs ∧ last_part f k)
    | Raise e =>
        ∃ sent' f,
          sent = sent' ++ [f] ∧
          answered debug (World.asr_engine w) sent' ∧
          RecognizeFile f true debug
            (engine_after debug sent' (World.asr_engine w)) =
            (Raise e, World.asr_engine (recognize_all_spin all_wavs debug w).2)
    end.
Proof.
  destruct (recognize_loop_any debug all_wavs ∅ w)
    as (sent & Hpre & Hcalls & _ & Hres).
  exists sent. split_and!; [done..|].
  unfold recognize_all_spin.
  destruct (for_acc all_wavs _ _ w).1 as [found|e]; [|done].
  destruct Hres as (-> & Hdom & Hans).
  rewrite dom_empty_L, (left_id_L ∅ (∪)) in Hdom.
  split_and!; [done..|].
  intros k. rewrite Hdom. apply elem_of_basenames.
Qed.

(** A run that stops: the second path fails, the third is not asked
    about. *)
Example recognize_all_spin_stops :
  @recognize_all_spin micro_time picky_engine
    ["d/a.wav"; "d/bad.wav"; "d/c.wav"] false
    (@fresh_world micro_time picky_engine tt) =
  (Raise (CollaboratorError "bad file"),
   @World.Build micro_time picky_engine tt
     [mkCall "d/a.wav" true false; mkCall "d/bad.wav" true false] []).
Proof. reflexivity. Qed.

(** X15: with [debug] off [recognize_all_spin] prints nothing, whether it
    returns or raises. *)
Theorem recognize_all_spin_quiet `{RecognitionEngine}
    (all_wavs : list string) (w : World.t) :
  World.stdout (recognize_all_spin all_wavs false w).2 = World.stdout w.
Proof.
  destruct (recognize_loop_any false all_wavs ∅ w)
    as (sent & _ & _ & Hout & _).
  by apply Hout.
Qed.

(** ** The recognition engine *)

Lemma drop_app_length a b : PyStr.drop (String.length a) (a +:+ b) = b.
Proof. induction a as [|c a IH]; [done|]. by rewrite str_app_cons. Qed.

Lemma str_length_app a b :
  String.length (a +:+ b) = (String.length a + String.length b)%nat.
Proof.
  induction a as [|c a IH]; [done|]. rewrite str_app_cons. simpl. by rewrite IH.
Qed.

Lemma drop_split n s :
  (n ≤ String.length s)%nat →
  ∃ a, s = a +:+ PyStr.drop n s ∧ String.length a = n.
Proof.
  revert s. induction n as [|n IH]; intros s Hn; [by exists ""|].
  destruct s as [|c s]; simpl in Hn; [lia|].
  destruct (IH s) as (a & Ha & Hl); [lia|].
  exists (String c a). simpl. rewrite str_app_cons. by rewrite <- Ha, Hl.
Qed.

(** [endswith] holds exactly of the strings that end with the suffix. *)
Lemma endswith_spec suffix s :
  endswith suffix s = true ↔ ∃ front, s = front +:+ suffix.
Proof.
  unfold endswith. rewrite andb_true_iff, Nat.leb_le, String.eqb_eq. split.
  - intros [Hlen Hdrop].
    destruct (drop_split (String.length s - String.length suffix) s)
      as (a & Ha & _); [lia|].
    exists a. by rewrite Hdrop in Ha.
  - intros [front ->]. rewrite str_length_app. split; [lia|].
    replace (String.length front + String.length suffix - String.length suffix)%nat
      with (String.length front) by lia.
    apply drop_app_length.
Qed.

Lemma str_app_assoc s t u : (s +:+ t) +:+ u = s +:+ t +:+ u.
Proof. induction s as [|c s IH]; [done|]. by rewrite !str_app_cons, IH. Qed.

Lemma parent_recognizer project location :
  ("projects/" +:+ project +:+ "/locations/" +:+ location) +:+ "/recognizers/_" =
    recognizer_path project location.
Proof. unfold recognizer_path. by rewrite !str_app_assoc. Qed.

Ltac engine_run :=
  unfold EngineImpl.RecognizeFile, EngineImpl.RecognizeWaveform,
    EngineImpl.CreateRecognizer, EngineImpl.CreateSpeechClient,
    EngineImpl.ListRecognizers,
    EngineImpl.recognizer_name, EngineImpl.parent_name, EngineImpl.recognize,
    EngineImpl.send, EngineImpl.attr, EngineImpl.assign, EngineImpl.library,
    EngineImpl.print_request, EngineImpl.ReadAudioFile,
    mbind, M_bind, mret, M_ret, raise, get, modify;
  cbn [Outside.self Outside.cloud Outside.requests Outside.printed
       Self._client Self._model Self._project Self._spoken_punct
       Self._auto_punct Self._location Self._recognizer_config
       EngineImpl.set_client EngineImpl.set_model EngineImpl.set_project
       EngineImpl.set_spoken_punct EngineImpl.set_auto_punct
       EngineImpl.set_location EngineImpl.set_recognizer_config fst snd].

Section EngineFacts.
Context `{SpeechLibrary}.

(** What [RecognizeWaveform] does, case by case. *)
Lemma RecognizeWaveform_run samples rate timings (o : Outside.t) :
  EngineImpl.RecognizeWaveform (as_ndarray samples) rate timings false o =
    match Self._project (Outside.self o), Self._location (Outside.self o) with
    | Some project, Some location =>
        if EngineImpl.int32 rate then
          match Self._model (Outside.self o), Self._auto_punct (Outside.self o),
                Self._spoken_punct (Outside.self o) with
          | Some model, Some auto, Some spoken =>
              let cfg := wav_config rate model timings auto spoken in
              let request :=
                RecognizeRequest.Build (recognizer_path project location) cfg
                  (astype_int16_tobytes samples) in
              let self' :=
                EngineImpl.set_recognizer_config cfg (Outside.self o) in
              match Self._client (Outside.self o) with
              | Some client =>
                  ((client_recognize client request (Outside.cloud o)).1,
                   Outside.Build _ _ self'
                     (client_recognize client request (Outside.cloud o)).2
                     (Outside.requests o ++ [request]) (Outside.printed o))
              | None =>
                  (Raise AttributeError,
                   Outside.Build _ _ self' (Outside.cloud o)
                     (Outside.requests o) (Outside.printed o))
              end
          | _, _, _ => (Raise AttributeError, o)
          end
        else (Raise ValueError, o)
    | _, _ => (Raise AttributeError, o)
    end.
Proof.
  destruct o as [[client model project spoken auto location config] c reqs pr].
  engine_run.
  destruct project as [project|]; [|done].
  destruct location as [location|]; [|done].
  engine_run. unfold EngineImpl.ExplicitDecodingConfig.
  change (EngineImpl.int32 1) with true. rewrite andb_true_r.
  destruct (EngineImpl.int32 rate); [|done].
  engine_run.
  destruct model as [model|]; [|done].
  destruct auto as [auto|]; [|done].
  destruct spoken as [spoken|]; [|done].
  engine_run. rewrite parent_recognizer.
  destruct client as [client|]; [|done].
  engine_run. unfold wav_config.
  by destruct (client_recognize _ _ _).
Qed.

(** What [RecognizeFile] does on a path that does not end in [.wav]. *)
Lemma RecognizeFile_other_run path timings debug (o : Outside.t) :
  endswith ".wav" path = false →
  EngineImpl.RecognizeFile path timings debug o =
    match Self._project (Outside.self o), Self._location (Outside.self o),
          Self._recognizer_config (Outside.self o) with
    | Some project, Some location, Some cfg =>
        match fsspec_read path (Outside.cloud o) with
        | (Ok content, c1) =>
            let request :=
              RecognizeRequest.Build (recognizer_path project location) cfg
                content in
            let pr := Outside.printed o ++ if debug then [request] else [] in
            match Self._client (Outside.self o) with
            | Some client =>
                ((client_recognize client request c1).1,
                 Outside.Build _ _ (Outside.self o)
                   (client_recognize client request c1).2
                   (Outside.requests o ++ [request]) pr)
            | None =>
                (Raise AttributeError,
                 Outside.Build _ _ (Outside.self o) c1 (Outside.requests o) pr)
            end
        | (Raise e, c1) =>
            (Raise e,
             Outside.Build _ _ (Outside.self o) c1 (Outside.requests o)
               (Outside.printed o))
        end
    | _, _, _ => (Raise AttributeError, o)
    end.
Proof.
  intros Hwav.
  destruct o as [[client model project spoken auto location config] c reqs pr].
  engine_run. rewrite Hwav. engine_run.
  destruct project as [project|]; [|done].
  destruct location as [location|]; [|done].
  destruct config as [config|]; [|done].
  engine_run. rewrite parent_recognizer.
  destruct (fsspec_read path c) as [[content|e] c1]; [|done].
  destruct debug; engine_run; rewrite ?app_nil_r;
    (destruct client as [client|]; [|done]);
    engine_run; by destruct (client_recognize _ _ _).
Qed.

Lemma RecognizeFile_wav_run path timings debug (o : Outside.t) :
  endswith ".wav" path = true →
  EngineImpl.RecognizeFile path timings debug o =
    match wavfile_read path (Outside.cloud o) with
    | (Ok (rate, samples), c1) =>
        EngineImpl.RecognizeWaveform (as_ndarray samples) rate timings false
          (Outside.Build _ _ (Outside.self o) c1 (Outside.requests o)
             (Outside.printed o))
    | (Raise e, c1) =>
        (Raise e,
         Outside.Build _ _ (Outside.self o) c1 (Outside.requests o)
           (Outside.printed o))
    end.
Proof.
  intros Hwav. unfold EngineImpl.RecognizeFile. rewrite Hwav.
  unfold mbind, M_bind, EngineImpl.library.
  by destruct (wavfile_read path (Outside.cloud o)) as [[[rate samples]|e] c1].
Qed.

(** The request that goes out for a path that does not end in [.wav], if
    one does. *)
Lemma RecognizeFile_other_sent path t debug (o : Outside.t) :
  endswith ".wav" path = false →
  Outside.requests (EngineImpl.RecognizeFile path t debug o).2 =
    Outside.requests o ∨
  ∃ project location cfg content,
    Self._project (Outside.self o) = Some project ∧
    Self._location (Outside.self o) = Some location ∧
    Self._recognizer_config (Outside.self o) = Some cfg ∧
    (fsspec_read path (Outside.cloud o)).1 = Ok content ∧
    Outside.requests (EngineImpl.RecognizeFile path t debug o).2 =
      Outside.requests o ++
      [RecognizeRequest.Build (recognizer_path project location) cfg content].
Proof.
  intros Hwav. rewrite RecognizeFile_other_run by done.
  destruct (Self._project (Outside.self o)) as [project|]; [|by left].
  destruct (Self._location (Outside.self o)) as [location|]; [|by left].
  destruct (Self._recognizer_config (Outside.self o)) as [cfg|]; [|by left].
  destruct (fsspec_read path (Outside.cloud o)) as [[content|e] c1];
    [|by left].
  destruct (Self._client (Outside.self o)) as [client|]; [|by left].
  right. by exists project, location, cfg, content.
Qed.

(** The request that goes out for a path that ends in [.wav], if one does,
    and the configuration the engine holds afterwards. *)
Lemma RecognizeFile_wav_sent path timings debug (o : Outside.t) :
  endswith ".wav" path = true →
  Outside.requests (EngineImpl.RecognizeFile path timings debug o).2 =
    Outside.requests o ∨
  ∃ rate samples project location model auto spoken,
    (wavfile_read path (Outside.cloud o)).1 = Ok (rate, samples) ∧
    Self._project (Outside.self o) = Some project ∧
    Self._location (Outside.self o) = Some location ∧
    Self._model (Outside.self o) = Some model ∧
    Self._auto_punct (Outside.self o) = Some auto ∧
    Self._spoken_punct (Outside.self o) = Some spoken ∧
    Outside.requests (EngineImpl.RecognizeFile path timings debug o).2 =
      Outside.requests o ++
      [RecognizeRequest.Build (recognizer_path project location)
         (wav_config rate model timings auto spoken)
         (astype_int16_tobytes samples)] ∧
    Self._recognizer_config
      (Outside.self (EngineImpl.RecognizeFile path timings debug o).2) =
      Some (wav_config rate model timings auto spoken).
Proof.
  intros Hwav. rewrite RecognizeFile_wav_run by done.
  destruct (wavfile_read path (Outside.cloud o)) as [[[rate samples]|e] c1];
    [|by left].
  rewrite RecognizeWaveform_run. cbn [Outside.self].
  destruct (Self._project (Outside.self o)) as [project|]; [|by left].
  destruct (Self._location (Outside.self o)) as [location|]; [|by left].
  destruct (EngineImpl.int32 rate); [|by left].
  destruct (Self._model (Outside.self o)) as [model|]; [|by left].
  destruct (Self._auto_punct (Outside.self o)) as [auto|]; [|by left].
  destruct (Self._spoken_punct (Outside.self o)) as [spoken|]; [|by left].
  cbv zeta.
  destruct (Self._client (Outside.self o)) as [client|]; [|by left].
  right. by exists rate, samples, project, location, model, auto, spoken.
Qed.

End EngineFacts.

(** X16: on a path that does not end in [.wav], [RecognizeFile] makes no
    use of [with_timings]: the request it sends, if it gets that far,
    carries the configuration the engine holds, with the timing flag that
    configuration has; it is addressed to the engine's project and
    location, its content is the file, and the engine is left as it was. *)
Theorem RecognizeFile_other `{SpeechLibrary}
    (path : string) (debug : bool) (o : Outside.t) :
  endswith ".wav" path = false →
  (∀ t1 t2,
     EngineImpl.RecognizeFile path t1 debug o =
     EngineImpl.RecognizeFile path t2 debug o) ∧
  (∀ t,
     Outside.self (EngineImpl.RecognizeFile path t debug o).2 = Outside.self o ∧
     (Outside.requests (EngineImpl.RecognizeFile path t debug o).2 =
        Outside.requests o ∨
      ∃ project location cfg content,
        Self._project (Outside.self o) = Some project ∧
        Self._location (Outside.self o) = Some location ∧
        Self._recognizer_config (Outside.self o) = Some cfg ∧
        (fsspec_read path (Outside.cloud o)).1 = Ok content ∧
        Outside.requests (EngineImpl.RecognizeFile path t debug o).2 =
          Outside.requests o ++
          [RecognizeRequest.Build (recognizer_path project location) cfg
             content])).
Proof.
  intros Hwav. split.
  - intros t1 t2. by rewrite !RecognizeFile_other_run.
  - intros t. split; [|by apply RecognizeFile_other_sent].
    rewrite RecognizeFile_other_run by done.
    destruct (Self._project (Outside.self o)) as [project|]; [|done].
    destruct (Self._location (Outside.self o)) as [location|]; [|done].
    destruct (Self._recognizer_config (Outside.self o)) as [cfg|]; [|done].
    destruct (fsspec_read path (Outside.cloud o)) as [[content|e] c1];
      [|done].
    by destruct (Self._client (Outside.self o)) as [client|].
Qed.

Lemma RecognizeFile_other_witness :
  @Outside.requests micro_time echo_library
    (@EngineImpl.RecognizeFile micro_time echo_library "a.flac" true false
       ready_engine).2 =
  @Outside.requests micro_time echo_library
    (@EngineImpl.RecognizeFile micro_time echo_library "a.flac" false false
       ready_engine).2.
Proof.
  by rewrite (proj1 (@RecognizeFile_other micro_time echo_library "a.flac"
                       false ready_engine eq_refl) true false).
Defined.

(** X17: on a path that ends in [.wav], [RecognizeFile] never prints the
    request, [debug] or not, and the request it sends, if it gets that
    far, asks for [LINEAR16] decoding at the sample rate of the file on one
    channel, in [en-US] whatever locale the recognizer was created with,
    with the timing flag it was called with and the punctuation flags the
    engine holds; its content is the samples as 16-bit integers; and that
    configuration replaces the one the engine held. *)
Theorem RecognizeFile_wav `{SpeechLibrary}
    (path : string) (timings debug : bool) (o : Outside.t) :
  endswith ".wav" path = true →
  Outside.printed (EngineImpl.RecognizeFile path timings debug o).2 =
    Outside.printed o ∧
  (Outside.requests (EngineImpl.RecognizeFile path timings debug o).2 =
     Outside.requests o ∨
   ∃ rate samples project location model auto spoken,
     (wavfile_read path (Outside.cloud o)).1 = Ok (rate, samples) ∧
     Self._project (Outside.self o) = Some project ∧
     Self._location (Outside.self o) = Some location ∧
     Self._model (Outside.self o) = Some model ∧
     Self._auto_punct (Outside.self o) = Some auto ∧
     Self._spoken_punct (Outside.self o) = Some spoken ∧
     Outside.requests (EngineImpl.RecognizeFile path timings debug o).2 =
       Outside.requests o ++
       [RecognizeRequest.Build (recognizer_path project location)
          (wav_config rate model timings auto spoken)
          (astype_int16_tobytes samples)] ∧
     Self._recognizer_config
       (Outside.self (EngineImpl.RecognizeFile path timings debug o).2) =
       Some (wav_config rate model timings auto spoken)).
Proof.
  intros Hwav. split; [|by apply RecognizeFile_wav_sent].
  rewrite RecognizeFile_wav_run by done.
  destruct (wavfile_read path (Outside.cloud o)) as [[[rate samples]|e] c1];
    [|done].
  rewrite RecognizeWaveform_run. cbn [Outside.self].
  destruct (Self._project (Outside.self o)) as [project|]; [|done].
  destruct (Self._location (Outside.self o)) as [location|]; [|done].
  destruct (EngineImpl.int32 rate); [|done].
  destruct (Self._model (Outside.self o)) as [model|]; [|done].
  destruct (Self._auto_punct (Outside.self o)) as [auto|]; [|done].
  destruct (Self._spoken_punct (Outside.self o)) as [spoken|]; [|done].
  cbv zeta.
  by destruct (Self._client (Outside.self o)) as [client|].
Qed.

Lemma RecognizeFile_wav_witness :
  @Outside.printed micro_time echo_library
    (@EngineImpl.RecognizeFile micro_time echo_library "List 1.wav" true true
       ready_engine).2 = [].
Proof.
  exact (proj1 (@RecognizeFile_wav micro_time echo_library "List 1.wav"
                  true true ready_engine eq_refl)).
Defined.

(** X18: recognizing a [.wav] file loses the recognizer's configuration:
    once the request for a [.wav] file went out, the request sent for a
    later file of another kind carries the [LINEAR16] configuration of the
    [.wav] call, with its sample rate and its timing flag, and [en-US],
    not what [CreateRecognizer] had set. *)
Theorem RecognizeFile_wav_then_other `{SpeechLibrary}
    (wav other : string) (t1 d1 t2 d2 : bool) (o : Outside.t)
    (request : RecognizeRequest.t) :
  endswith ".wav" wav = true →
  endswith ".wav" other = false →
  Outside.requests (EngineImpl.RecognizeFile wav t1 d1 o).2 ≠
    Outside.requests o →
  Outside.requests
    (EngineImpl.RecognizeFile other t2 d2
       (EngineImpl.RecognizeFile wav t1 d1 o).2).2 =
    Outside.requests (EngineImpl.RecognizeFile wav t1 d1 o).2 ++ [request] →
  ∃ rate samples model auto spoken,
    (wavfile_read wav (Outside.cloud o)).1 = Ok (rate, samples) ∧
    RecognizeRequest.config request = wav_config rate model t1 auto spoken.
Proof.
  intros Hwav Hother Hsent.
  destruct (RecognizeFile_wav_sent wav t1 d1 o Hwav) as [Hno|Hreq]; [done|].
  destruct Hreq
    as (rate & samples & project & location & model & auto & spoken
        & Hread & _ & _ & _ & _ & _ & _ & Hcfg).
  set (o1 := (EngineImpl.RecognizeFile wav t1 d1 o).2) in *.
  destruct (RecognizeFile_other_sent other t2 d2 o1 Hother) as [Hno|Hreq].
  - rewrite Hno. intros Hnil. apply (f_equal length) in Hnil.
    rewrite length_app in Hnil. simpl in Hnil. lia.
  - destruct Hreq as (project' & location' & cfg & content
                      & _ & _ & Hcfg' & _ & ->).
    intros [= <-]%app_inv_head. exists rate, samples, model, auto, spoken.
    split; [done|]. simpl. congruence.
Qed.

Lemma RecognizeFile_wav_then_other_witness :
  ∃ rate samples model auto spoken,
    (@wavfile_read micro_time echo_library "a.wav" tt).1 = Ok (rate, samples) ∧
    wav_config 8000 "medical_dictation" true true true =
      wav_config rate model true auto spoken.
Proof.
  refine (@RecognizeFile_wav_then_other micro_time echo_library
            "a.wav" "b.flac" true false false false ready_engine
            (RecognizeRequest.Build (recognizer_path "hearing" "global")
               (wav_config 8000 "medical_dictation" true true true)
               (String.list_byte_of_string "b.flac"))
            eq_refl eq_refl _ _).
  - vm_compute. discriminate.
  - vm_compute. reflexivity.
Defined.

(** X25: a [.wav] file whose sample rate does not fit an [int32] is
    refused before anything goes out: on an engine that has a project and
    a location, [RecognizeFile] raises [ValueError] once the file is read,
    sends and prints nothing, and leaves the engine's attributes, the
    recognizer configuration among them, as they were. *)
Theorem RecognizeFile_wav_rate `{SpeechLibrary}
    (path : string) (timings debug : bool) (o : Outside.t)
    (rate : Z) (samples : Samples) (project location : string) :
  endswith ".wav" path = true →
  (wavfile_read path (Outside.cloud o)).1 = Ok (rate, samples) →
  Self._project (Outside.self o) = Some project →
  Self._location (Outside.self o) = Some location →
  ¬ (- 2 ^ 31 ≤ rate < 2 ^ 31) →
  (EngineImpl.RecognizeFile path timings debug o).1 = Raise ValueError ∧
  Outside.self (EngineImpl.RecognizeFile path timings debug o).2 =
    Outside.self o ∧
  Outside.requests (EngineImpl.RecognizeFile path timings debug o).2 =
    Outside.requests o ∧
  Outside.printed (EngineImpl.RecognizeFile path timings debug o).2 =
    Outside.printed o.
Proof.
  intros Hwav Hread Hp Hl Hrate. rewrite RecognizeFile_wav_run by done.
  destruct (wavfile_read path (Outside.cloud o)) as [[[rate' samples']|e] c1];
    [|done].
  injection Hread as -> ->.
  rewrite RecognizeWaveform_run. cbn [Outside.self]. rewrite Hp, Hl.
  assert (EngineImpl.int32 rate = false) as ->; [|done].
  unfold EngineImpl.int32. apply andb_false_iff.
  rewrite Z.leb_gt, Z.ltb_ge. lia.
Qed.

Lemma RecognizeFile_wav_rate_witness :
  (@EngineImpl.RecognizeFile micro_time shrill_library "a.wav" true false
     shrill_engine).1 = Raise ValueError.
Proof.
  refine (proj1 (@RecognizeFile_wav_rate micro_time shrill_library "a.wav"
                   true false shrill_engine (2 ^ 31) "a.wav" "hearing"
                   "global" eq_refl eq_refl eq_refl eq_refl _)).
  lia.
Defined.

Section EngineSetup.
Context `{SpeechLibrary}.

Lemma CreateSpeechClient_run project model (o : Outside.t) :
  EngineImpl.CreateSpeechClient project model o =
    let made client :=
      Self.Build _ _ client (Some model) (Some project) (Some false)
        (Some false) (Some (location_of model))
        (Self._recognizer_config (Outside.self o)) in
    match SpeechClient (endpoint_of model) (Outside.cloud o) with
    | (Ok client, c1) =>
        (Ok tt, Outside.Build _ _ (made (Some client)) c1 (Outside.requests o)
                  (Outside.printed o))
    | (Raise e, c1) =>
        (Raise e,
         Outside.Build _ _ (made (Self._client (Outside.self o))) c1
           (Outside.requests o) (Outside.printed o))
    end.
Proof.
  destruct o as [[client model0 project0 spoken auto location config] c reqs pr].
  unfold endpoint_of, location_of. engine_run.
  destruct (String.eqb model "chirp"); engine_run;
    by destruct (SpeechClient _ c) as [[cl|e] c1].
Qed.

Lemma CreateRecognizer_run timings locale (o : Outside.t) :
  EngineImpl.CreateRecognizer timings locale o =
    match Self._model (Outside.self o) with
    | None => (Raise AttributeError, o)
    | Some model =>
        (Ok tt,
         Outside.Build _ _
           (Self.Build _ _ (Self._client (Outside.self o)) (Some model)
              (Self._project (Outside.self o))
              (Some (String.eqb model "medical_dictation"))
              (Some (medical model))
              (Self._location (Outside.self o))
              (Some (auto_config locale model timings)))
           (Outside.cloud o) (Outside.requests o) (Outside.printed o))
    end.
Proof.
  destruct o as [[client model project spoken auto location config] c reqs pr].
  engine_run. destruct model as [model|]; [|done].
  unfold auto_config, medical.
  destruct (String.eqb model "medical_conversation") eqn:E1; engine_run.
  - apply String.eqb_eq in E1 as ->. done.
  - by destruct (String.eqb model "medical_dictation"); engine_run.
Qed.

End EngineSetup.

(** X19: an engine on which [CreateSpeechClient] was never called is of no
    use: [CreateRecognizer] raises [AttributeError] and changes nothing,
    and [RecognizeFile] raises on every path without a request going out
    (on a path that does not end in [.wav], before the file is read). *)
Theorem fresh_engine_unusable `{SpeechLibrary}
    (c : Cloud) (path locale : string) (timings debug : bool) :
  EngineImpl.CreateRecognizer timings locale (fresh_engine c) =
    (Raise AttributeError, fresh_engine c) ∧
  (∃ e, (EngineImpl.RecognizeFile path timings debug (fresh_engine c)).1 =
          Raise e) ∧
  Outside.requests
    (EngineImpl.RecognizeFile path timings debug (fresh_engine c)).2 = [] ∧
  (if endswith ".wav" path then True
   else EngineImpl.RecognizeFile path timings debug (fresh_engine c) =
          (Raise AttributeError, fresh_engine c)).
Proof.
  split; [by rewrite CreateRecognizer_run|].
  destruct (endswith ".wav" path) eqn:Hwav.
  - rewrite RecognizeFile_wav_run by done. simpl.
    destruct (wavfile_read path c) as [[[rate samples]|e] c1].
    + rewrite RecognizeWaveform_run. simpl. eauto.
    + simpl. eauto.
  - rewrite RecognizeFile_other_run by done. simpl. eauto.
Qed.

(** X20: with a client but without [CreateRecognizer], a path that does
    not end in [.wav] raises [AttributeError] before anything is read or
    sent, while a [.wav] file is recognized, with both punctuation flags
    off whatever the model, the medical ones included; the request goes to
    location [us-central1] for the model [chirp] and to [global] for every
    other. *)
Theorem recognizer_not_created `{SpeechLibrary}
    (c : Cloud) (project model path : string) (timings debug : bool) :
  let o := (EngineImpl.CreateSpeechClient project model (fresh_engine c)).2 in
  if endswith ".wav" path then
    ∀ request,
      Outside.requests (EngineImpl.RecognizeFile path timings debug o).2 =
        [request] →
      RecognizeRequest.recognizer request =
        recognizer_path project (location_of model) ∧
      RecognitionConfig.features (RecognizeRequest.config request) =
        RecognitionFeatures.Build timings false false
  else
    EngineImpl.RecognizeFile path timings debug o = (Raise AttributeError, o).
Proof.
  intros o.
  assert (Outside.requests o = [] ∧
          Self._project (Outside.self o) = Some project ∧
          Self._location (Outside.self o) = Some (location_of model) ∧
          Self._auto_punct (Outside.self o) = Some false ∧
          Self._spoken_punct (Outside.self o) = Some false ∧
          Self._recognizer_config (Outside.self o) = None)
    as (Hreq & Hp & Hl & Hau & Hsp & Hcfg).
  { unfold o. rewrite CreateSpeechClient_run. simpl.
    by destruct (SpeechClient _ c) as [[cl|e] c1]. }
  destruct (endswith ".wav" path) eqn:Hwav.
  - intros request.
    destruct (RecognizeFile_wav_sent path timings debug o Hwav) as [->|Hsent].
    + by rewrite Hreq.
    + destruct Hsent
        as (rate & samples & project' & location' & model' & auto & spoken
            & _ & Hp' & Hl' & _ & Hau' & Hsp' & -> & _).
      rewrite Hreq. intros [= <-]. simpl. split; congruence.
  - rewrite RecognizeFile_other_run by done. rewrite Hp, Hl, Hcfg. done.
Qed.

Lemma recognizer_not_created_witness :
  RecognitionConfig.features (wav_config 8000 "medical_dictation" true false false) =
    RecognitionFeatures.Build true false false.
Proof.
  pose proof (@recognizer_not_created micro_time echo_library tt
                "hearing" "medical_dictation" "a.wav" true false) as Hwav.
  cbv zeta in Hwav. change (endswith ".wav" "a.wav") with true in Hwav.
  cbv iota in Hwav.
  exact (proj2 (Hwav (RecognizeRequest.Build (recognizer_path "hearing" "global")
                        (wav_config 8000 "medical_dictation" true false false)
                        (String.list_byte_of_string "a.wav"))
                  eq_refl)).
Defined.

(** X21: [CreateRecognizer] works exactly when the engine has a model.  The
    configuration it stores asks for automatic punctuation exactly for the
    models [medical_conversation] and [medical_dictation] and for spoken
    punctuation exactly for [medical_dictation], so never for spoken
    punctuation alone; it has the locale and the timing flag given, and
    decoding is left to the service.  Nothing is read or sent. *)
Theorem CreateRecognizer_config `{SpeechLibrary}
    (timings : bool) (locale : string) (o : Outside.t) :
  match Self._model (Outside.self o) with
  | None =>
      EngineImpl.CreateRecognizer timings locale o = (Raise AttributeError, o)
  | Some model =>
      ∃ o',
        EngineImpl.CreateRecognizer timings locale o = (Ok tt, o') ∧
        Self._recognizer_config (Outside.self o') =
          Some (RecognitionConfig.Build auto_decoding_config [locale] model
                  (RecognitionFeatures.Build timings (medical model)
                     (String.eqb model "medical_dictation"))) ∧
        Self._auto_punct (Outside.self o') = Some (medical model) ∧
        Self._spoken_punct (Outside.self o') =
          Some (String.eqb model "medical_dictation") ∧
        (String.eqb model "medical_dictation" = true → medical model = true) ∧
        Outside.cloud o' = Outside.cloud o ∧
        Outside.requests o' = Outside.requests o
  end.
Proof.
  rewrite CreateRecognizer_run.
  destruct (Self._model (Outside.self o)) as [model|]; [|done].
  eexists. split; [done|]. split_and!; try done.
  unfold medical. intros ->. apply orb_true_r.
Qed.

Lemma CreateRecognizer_config_witness :
  ∃ o',
    @EngineImpl.CreateRecognizer micro_time echo_library false "fr-FR"
      client_engine = (Ok tt, o') ∧
    @Self._auto_punct micro_time echo_library
      (@Outside.self micro_time echo_library o') = Some true.
Proof.
  pose proof (@CreateRecognizer_config micro_time echo_library false "fr-FR"
                client_engine) as Hcfg.
  change (@Self._model micro_time echo_library
            (@Outside.self micro_time echo_library client_engine))
    with (Some "medical_dictation") in Hcfg.
  destruct Hcfg as (o' & Hrun & _ & Hauto & _).
  exists o'. split; [exact Hrun|exact Hauto].
Defined.

(** X22: [ListRecognizers] uses its [gcp_project] only when the engine has
    no client yet: then it makes one for the model [default_long] and asks
    for the recognizers of that project at location [global]; when the
    engine has a client, the project asked about is the engine's, whatever
    [gcp_project] is. *)
Theorem ListRecognizers_project `{SpeechLibrary} :
  (∀ (o : Outside.t) p1 p2,
     is_Some (Self._client (Outside.self o)) →
     EngineImpl.ListRecognizers p1 o = EngineImpl.ListRecognizers p2 o) ∧
  (∀ (c : Cloud) p,
     (EngineImpl.ListRecognizers p (fresh_engine c)).1 =
       match SpeechClient None c with
       | (Ok client, c1) =>
           (client_list_recognizers client
              ("projects/" +:+ p +:+ "/locations/global") c1).1
       | (Raise e, _) => Raise e
       end).
Proof.
  split.
  - intros o p1 p2 [client Hc]. unfold EngineImpl.ListRecognizers.
    unfold mbind, M_bind, get. by rewrite Hc.
  - intros c p. unfold EngineImpl.ListRecognizers.
    unfold mbind, M_bind, get. simpl.
    pose proof (CreateSpeechClient_run p "default_long" (fresh_engine c))
      as Hrun.
    unfold mbind, M_bind in Hrun. rewrite Hrun. simpl.
    change (endpoint_of "default_long") with (@None string).
    destruct (SpeechClient None c) as [[client|e] c1]; [|done].
    engine_run. by destruct (client_list_recognizers _ _ c1).
Qed.

Lemma ListRecognizers_project_witness :
  @EngineImpl.ListRecognizers micro_time echo_library "other" ready_engine =
  @EngineImpl.ListRecognizers micro_time echo_library "hearing" ready_engine.
Proof.
  apply (proj1 (@ListRecognizers_project micro_time echo_library)).
  by eexists.
Defined.

Section EngineBatch.
Context `{SpeechLibrary}.

Lemma recognize_loop_wav debug all_wavs all_results
    (w : @World.t _ cloud_engine) :
  Forall (λ f, endswith ".wav" f = true) all_wavs →
  ∃ new,
    Outside.requests
      (World.asr_engine
         (for_acc all_wavs (@recognize_one _ cloud_engine debug)
            all_results w).2) =
      Outside.requests (World.asr_engine w) ++ new ∧
    Forall timed_pcm_request new ∧
    (length new ≤ length (kept_files all_wavs))%nat.
Proof.
  intros Hall. revert all_results w.
  induction Hall as [|f fs Hf _ IH]; intros all_results w.
  - exists []. simpl. by rewrite app_nil_r.
  - cbn [for_acc]. unfold mbind, M_bind, kept_files. cbn [List.filter].
    fold (kept_files fs).
    destruct (PyStr.str_in "Calibration" f) eqn:Ef; cbn [negb].
    + rewrite (@recognize_one_skipped _ cloud_engine) by done. apply IH.
    + destruct (@recognize_one_cases _ cloud_engine debug all_results f w Ef)
        as (w1 & _ & A1 & _ & ->).
      assert (∃ mine,
                Outside.requests (World.asr_engine w1) =
                  Outside.requests (World.asr_engine w) ++ mine ∧
                Forall timed_pcm_request mine ∧ (length mine ≤ 1)%nat)
        as (mine & Hmine & Hok & Hlen).
      { rewrite A1.
        destruct (RecognizeFile_wav_sent f true debug (World.asr_engine w) Hf)
          as [Hno|Hsent].
        - exists []. rewrite app_nil_r.
          split_and!; [exact Hno|constructor|simpl; lia].
        - destruct Hsent
            as (rate & samples & project & location & model & auto & spoken
                & _ & _ & _ & _ & _ & _ & Hreq & _).
          eexists. split; [exact Hreq|]. split; [|simpl; lia].
          apply Forall_singleton. split_and!; [done..|]. by exists rate. }
      destruct (RecognizeFile f true debug (World.asr_engine w)).1
        as [resp|e].
      * destruct (IH (<[basename f := resp]> all_results) w1)
          as (new & -> & Hnew & Hn).
        exists (mine ++ new). rewrite Hmine, <- app_assoc.
        split_and!; [done|by apply Forall_app|].
        rewrite length_app. simpl. lia.
      * exists mine. cbn [snd]. split_and!; [done..|]. simpl. lia.
Qed.

End EngineBatch.

(** X23: run on the engine, [recognize_all_spin] over paths that all end in
    [.wav] sends only requests that ask for word timings, on one channel
    of [LINEAR16] samples and in [en-US], at most one for each path
    without ["Calibration"], whatever the service answers. *)
Theorem recognize_all_spin_wav `{SpeechLibrary}
    (all_wavs : list string) (debug : bool) (w : @World.t _ cloud_engine) :
  Forall (λ f, endswith ".wav" f = true) all_wavs →
  ∃ new,
    Outside.requests
      (World.asr_engine
         (@recognize_all_spin _ cloud_engine all_wavs debug w).2) =
      Outside.requests (World.asr_engine w) ++ new ∧
    Forall timed_pcm_request new ∧
    (length new ≤ length (kept_files all_wavs))%nat.
Proof. apply recognize_loop_wav. Qed.

Lemma recognize_all_spin_wav_witness :
  ∃ new,
    @Outside.requests micro_time echo_library
      (@World.asr_engine micro_time (@cloud_engine micro_time echo_library)
         (@recognize_all_spin micro_time (@cloud_engine micro_time echo_library)
            sample_files false
            (@fresh_world micro_time (@cloud_engine micro_time echo_library)
               ready_engine)).2) =
      @Outside.requests micro_time echo_library ready_engine ++ new ∧
    Forall timed_pcm_request new ∧
    (length new ≤ length (kept_files sample_files))%nat.
Proof.
  apply (@recognize_all_spin_wav micro_time echo_library sample_files false
           (@fresh_world micro_time (@cloud_engine micro_time echo_library)
              ready_engine)).
  repeat (apply Forall_cons; split; [reflexivity|]). apply Forall_nil_2.
Defined.

(** ** The ffmpeg commands *)

Lemma str_app_inv_head p a b : p +:+ a = p +:+ b → a = b.
Proof.
  induction p as [|c p IH]; [done|]. rewrite !str_app_cons. by intros [= ?%IH].
Qed.

Lemma str_app_inv_tail a b s : a +:+ s = b +:+ s → a = b.
Proof.
  revert b. induction a as [|c a IH]; intros [|d b]; try done.
  - intros Heq. apply (f_equal String.length) in Heq.
    rewrite str_app_cons, str_app_nil_l in Heq. simpl in Heq.
    rewrite str_length_app in Heq. lia.
  - intros Heq. apply (f_equal String.length) in Heq.
    rewrite str_app_cons, str_app_nil_l in Heq. simpl in Heq.
    rewrite str_length_app in Heq. lia.
  - rewrite !str_app_cons. intros [= -> ?%IH]. by f_equal.
Qed.

Lemma pretty_N_go_no_Q x s t :
  s ≠ String "Q" t → pretty_N_go x s ≠ String "Q" t.
Proof.
  revert s. induction (N.lt_wf_0 x) as [x _ IH]; intros s Hs.
  assert (x = 0 ∨ 0 < x)%N as [->|Hx] by lia.
  - by rewrite pretty_N_go_0.
  - rewrite pretty_N_go_step by done. apply IH.
    { by apply N.div_lt. }
    unfold pretty_N_char. by repeat case_match.
Qed.

Lemma pretty_Z_no_Q (z : Z) a t : pretty z +:+ String " " a ≠ String "Q" t.
Proof.
  assert (∀ r, pretty z ≠ String "Q" r) as Hz.
  { intros r. unfold pretty, pretty_Z. destruct z as [|p|p]; [done| |done].
    unfold pretty, pretty_positive, pretty, pretty_N.
    case_decide; [done|]. by apply pretty_N_go_no_Q. }
  destruct (pretty z) as [|c r]; [done|].
  rewrite str_app_cons. intros [= -> _]. by apply (Hz r).
Qed.

(** X24: the commands [generate_ffmpeg_cmds] prints never clash: the
    commands of two different lists write different files, the two
    commands of a list write different files, and no command writes a
    file that a command reads. *)
Theorem ffmpeg_files_distinct (i j : Z) :
  (clean_output i = clean_output j → i = j) ∧
  (babble_output i = babble_output j → i = j) ∧
  clean_output i ≠ babble_output j ∧
  clean_input i ≠ clean_output j ∧ clean_input i ≠ babble_output j ∧
  babble_input i ≠ clean_output j ∧ babble_input i ≠ babble_output j.
Proof.
  unfold clean_output, babble_output, clean_input, babble_input.
  split_and!; try done.
  - intros Heq%str_app_inv_head%str_app_inv_tail. by apply (inj pretty).
  - intros Heq%str_app_inv_head%str_app_inv_tail. by apply (inj pretty).
  - apply pretty_Z_no_Q.
  - apply pretty_Z_no_Q.
Qed.
